(** * The request execution engine of the HTTP client wrappers

    A shallow embedding of the three client wrappers of the repository:

    - package [httpclient] ([CommonHTTPClient] over [net/http], with the
      hand-written retry loop),
    - package [hwaasresty] ([CommonHTTPClient] over resty),
    - package [httpclient2] ([Client] with functional options and
      authentication).

    The Go standard library and the network are not part of the repository.
    They are modelled by the small modules [Url], [Header], [Ctx] and by the
    [World] the program runs in: a logical clock, a heap of [io.Reader]
    objects, the record of what was handed to the transport, and the record
    of what was handed to the logger. *)

From Stdlib Require Import ZArith Lia String Ascii Bool.
From stdpp Require Import base option list gmap strings.

Local Open Scope string_scope.
Local Open Scope list_scope.
Local Open Scope Z_scope.

(** ** Machine integers

    [int] and [time.Duration] are 64-bit signed integers; [attempt++] wraps. *)
Module Int64.

Definition max_int : Z := 2 ^ 63 - 1.
Definition min_int : Z := - 2 ^ 63.

Definition wrap (z : Z) : Z := (z + 2 ^ 63) mod 2 ^ 64 - 2 ^ 63.

Definition succ (z : Z) : Z := wrap (z + 1).

End Int64.

Definition Second : Z := 1000000000.

(** ** Errors that the program or its collaborators produce *)
Inductive Error :=
| ErrParse (input : string)          (* url.Parse rejected the string *)
| ErrInvalidMethod (method : string) (* net/http: invalid method *)
| ErrCanceled                        (* context.Canceled *)
| ErrDeadlineExceeded                (* context.DeadlineExceeded *)
| ErrClientTimeout                   (* http.Client.Timeout exceeded *)
| ErrTransport (msg : string)        (* connection level failure *)
| ErrRead (msg : string)             (* an io.Reader failed *)
| ErrUnsupportedMethod               (* errors.New("unsupported method") *)
| ErrOther (msg : string).

#[global] Instance Error_eq_dec : EqDecision Error.
Proof. solve_decision. Defined.

(** ** strings helpers used by the library models *)
Module Strings.

Definition slash : ascii := "/"%char.

(** [strings.Split(s, "/")]: the elements that repeated [strings.Cut(_, "/")]
    yields, in order. *)
Fixpoint Split (s : string) : list string :=
  match s with
  | EmptyString => [EmptyString]
  | String c s' =>
      if Ascii.eqb c slash then EmptyString :: Split s'
      else match Split s' with
           | e :: es => String c e :: es
           | [] => [String c EmptyString]
           end
  end.


(** [strings.LastIndexByte]; [None] stands for -1. *)
Fixpoint LastIndexByte (s : string) (c : ascii) : option nat :=
  match s with
  | EmptyString => None
  | String a s' =>
      match LastIndexByte s' c with
      | Some i => Some (S i)
      | None => if Ascii.eqb a c then Some O else None
      end
  end.

(** [s[:n]] and [s[n:]] *)
Fixpoint Prefix (n : nat) (s : string) : string :=
  match n, s with
  | S n', String c s' => String c (Prefix n' s')
  | _, _ => EmptyString
  end.

Definition Tail (s : string) : string :=
  match s with
  | EmptyString => EmptyString
  | String _ s' => s'
  end.

Definition HasSlashPrefix (s : string) : bool :=
  match s with
  | String c _ => Ascii.eqb c slash
  | EmptyString => false
  end.

End Strings.

(** ** net/url, as far as the clients use it

    A URL of the hierarchical form [scheme://host/path?query].  [Path] holds
    the escaped path.  The query string is kept in decoded form: [RawQuery]
    is the multimap that [Query()] parses it to and that [Encode()] prints,
    so percent-encoding itself is outside the model. *)
Module Url.

Abbreviation Values := (gmap string (list string)).

Record URL := mkURL {
  Scheme : string;
  Host : string;
  Path : string;
  RawQuery : Values;
}.

Definition set_RawQuery (q : Values) (u : URL) : URL :=
  mkURL (Scheme u) (Host u) (Path u) q.

(** [Values.Set], [Values.Add] *)
Definition Set_ (k v : string) (q : Values) : Values := <[k := [v]]> q.
Definition Add (k v : string) (q : Values) : Values :=
  <[k := default [] (q !! k) ++ [v]]> q.

(** [v] is among the values of [k]. *)
Definition has (q : Values) (k v : string) : Prop :=
  ∃ vs, q !! k = Some vs ∧ v ∈ vs.

(** One round of the dot-segment loop of [resolvePath]: [dst] is the
    builder's content (it always starts with the '/' written up front) and
    [first] the flag of the same name. *)
Definition dot_step (elem : string) (st : string * bool) : string * bool :=
  let '(dst, first) := st in
  if String.eqb elem "." then (dst, false)
  else if String.eqb elem ".." then
    let str := Strings.Tail dst in
    match Strings.LastIndexByte str Strings.slash with
    | None => ("/", true)
    | Some index => ("/" +:+ Strings.Prefix index str, first)
    end
  else
    ((if first then dst else dst +:+ "/") +:+ elem, false).

Definition dot_loop (elems : list string) (st : string * bool) : string * bool :=
  foldl (fun st elem => dot_step elem st) st elems.

Definition resolvePath (base ref : string) : string :=
  let full :=
    if String.eqb ref "" then base
    else if negb (Strings.HasSlashPrefix ref) then
      match Strings.LastIndexByte base Strings.slash with
      | Some i => Strings.Prefix (S i) base +:+ ref
      | None => ref
      end
    else ref in
  if String.eqb full "" then ""
  else
    let elems := Strings.Split full in
    let '(dst, _) := dot_loop elems ("/", true) in
    let elem := List.last elems "" in
    let dst := if String.eqb elem "." || String.eqb elem ".." then dst +:+ "/" else dst in
    match dst with
    | String _ (String c r) => if Ascii.eqb c Strings.slash then String c r else dst
    | _ => dst
    end.



(** [URL.ResolveReference] on the modelled fields. *)
Definition ResolveReference (u ref : URL) : URL :=
  let scheme := if String.eqb (Scheme ref) "" then Scheme u else Scheme ref in
  if negb (String.eqb (Scheme ref) "") || negb (String.eqb (Host ref) "") then
    mkURL scheme (Host ref) (resolvePath (Path ref) "") (RawQuery ref)
  else
    let query :=
      if String.eqb (Path ref) "" && bool_decide (RawQuery ref = ∅)
      then RawQuery u else RawQuery ref in
    mkURL scheme (Host u) (resolvePath (Path u) (Path ref)) query.

End Url.

(** ** net/http headers *)
Module Header.

Abbreviation t := (gmap string (list string)).

Definition between (lo hi : N) (c : ascii) : bool :=
  let n := N_of_ascii c in ((lo <=? n) && (n <=? hi))%N.

Definition isLower := between 97 122.
Definition isUpper := between 65 90.
Definition isDigit := between 48 57.

(** [validHeaderFieldByte]: the token characters of RFC 7230. *)
Definition validHeaderFieldByte (c : ascii) : bool :=
  isLower c || isUpper c || isDigit c ||
  bool_decide (c ∈ list_ascii_of_string "!#$%&'*+-.^_`|~").

Definition toUpper (c : ascii) : ascii :=
  if isLower c then ascii_of_N (N_of_ascii c - 32) else c.
Definition toLower (c : ascii) : ascii :=
  if isUpper c then ascii_of_N (N_of_ascii c + 32) else c.

Fixpoint canonical (upper : bool) (s : string) : string :=
  match s with
  | EmptyString => EmptyString
  | String c s' =>
      let c' := if upper then toUpper c else toLower c in
      String c' (canonical (Ascii.eqb c' "-"%char) s')
  end.

(** [textproto.CanonicalMIMEHeaderKey]: a key with a byte outside the token
    characters is left alone. *)
Definition CanonicalMIMEHeaderKey (s : string) : string :=
  if forallb validHeaderFieldByte (list_ascii_of_string s)
  then canonical true s else s.

(** [Header.Set] *)
Definition Set_ (k v : string) (h : t) : t :=
  <[CanonicalMIMEHeaderKey k := [v]]> h.

End Header.

(** ** context.Context on a logical clock

    The environment cancels a context at [cancelAt]; its deadline, if any,
    is [deadline].  Times are nanoseconds on the [World]'s clock. *)
Module Ctx.

Record t := mk {
  deadline : option Z;
  cancelAt : option Z;
}.

Definition Background : t := mk None None.

Definition reached (o : option Z) (now : Z) : bool :=
  match o with
  | Some t => t <=? now
  | None => false
  end.

(** [ctx.Err()] at time [now]: the error of whichever fired first. *)
Definition Err (ctx : t) (now : Z) : option Error :=
  match reached (cancelAt ctx) now, reached (deadline ctx) now with
  | false, false => None
  | true, false => Some ErrCanceled
  | false, true => Some ErrDeadlineExceeded
  | true, true =>
      if default 0 (cancelAt ctx) <? default 0 (deadline ctx)
      then Some ErrCanceled else Some ErrDeadlineExceeded
  end.

Definition earlier (a : option Z) (b : Z) : Z :=
  match a with
  | Some x => Z.min x b
  | None => b
  end.

(** [context.WithTimeout(parent, d)] called at time [now]. *)
Definition WithTimeout (parent : t) (d : Z) (now : Z) : t :=
  mk (Some (earlier (deadline parent) (now + d))) (cancelAt parent).

(** The first instant in [(now, until]] at which the context is done. *)
Definition doneWithin (ctx : t) (until : Z) : option (Z * Error) :=
  match Err ctx until with
  | None => None
  | Some e =>
      Some (match e with
            | ErrCanceled => default until (cancelAt ctx)
            | _ => default until (deadline ctx)
            end, e)
  end.

End Ctx.

(** ** The world the clients run in *)

(** An [io.Reader] object: the bytes it still has to yield, and the error it
    ends with instead of EOF, if any. *)
Record Reader := mkReader {
  rest : list Byte.byte;
  broken : option Error;
}.

(** A request as the transport put it on the wire. *)
Record Sent := mkSent {
  sent_method : string;
  sent_url : Url.URL;
  sent_header : Header.t;
  sent_body : list Byte.byte;
  sent_at : Z;
}.

(** What the network answers to one send: after [latency] nanoseconds either
    a transport error or a response. *)
Record Reply := mkReply {
  latency : Z;
  answer : Error + (Z * Header.t * Reader);
}.

(** What was handed to the logger. *)
Inductive Event :=
| OutgoingRequest (method : string) (url : Url.URL) (query : Url.Values)
    (headers : option Header.t) (body : list Byte.byte)
| IncomingResponse (status_code : Z) (headers : option Header.t)
    (body : list Byte.byte)
| RequestFailed (url : Url.URL) (err : Error)
| ErrorReadingBody (url : Url.URL) (err : Error).

Record World := mkWorld {
  now : Z;                 (* the clock, in nanoseconds *)
  heap : list Reader;      (* the io.Reader objects, by address *)
  wire : list Sent;        (* requests put on the wire, oldest first *)
  calls : nat;             (* invocations of the HTTP client's Do *)
  log : list Event;        (* logger calls, oldest first *)
}.

(** What lies outside the repository and is left open: the order in which
    [range] visits the entries of a map, the reply of the network to the n-th
    request put on the wire, and what [url.Parse] makes of a string. *)
Record Env := mkEnv {
  range : list (string * string) -> list (string * string);
  net : nat -> Reply;
  parse : string -> Error + Url.URL;   (* url.Parse *)
}.

Definition set_now (t : Z) (w : World) : World :=
  mkWorld t (heap w) (wire w) (calls w) (log w).
Definition set_heap (h : list Reader) (w : World) : World :=
  mkWorld (now w) h (wire w) (calls w) (log w).
Definition add_sent (s : Sent) (w : World) : World :=
  mkWorld (now w) (heap w) (wire w ++ [s]) (calls w) (log w).
Definition add_call (w : World) : World :=
  mkWorld (now w) (heap w) (wire w) (S (calls w)) (log w).
Definition add_event (e : Event) (w : World) : World :=
  mkWorld (now w) (heap w) (wire w) (calls w) (log w ++ [e]).

(** ** Computations: state passing with early exit *)
Module Go.

(** How a function leaves: by [return], by a nil dereference, or never
    (the fuel of a loop ran out). *)
Inductive Exit (R : Type) :=
| Return (r : R)
| NilPanic
| Diverge.
Arguments Return {R} r.
Arguments NilPanic {R}.
Arguments Diverge {R}.

Definition M (R A : Type) : Type := World -> (A + Exit R) * World.

Definition ret {R A} (a : A) : M R A := fun w => (inl a, w).
Definition exit {R A} (e : Exit R) : M R A := fun w => (inr e, w).
Definition bind {R A B} (m : M R A) (f : A -> M R B) : M R B :=
  fun w => match m w with
           | (inl a, w') => f a w'
           | (inr e, w') => (inr e, w')
           end.
Definition get {R} : M R World := fun w => (inl w, w).
Definition modify {R} (f : World -> World) : M R unit := fun w => (inl tt, f w).

(** The body of a function: it has to leave through [exit]. *)
Definition run {R} (m : M R (Exit R)) (w : World) : Exit R * World :=
  match m w with
  | (inl e, w') => (e, w')
  | (inr e, w') => (e, w')
  end.

End Go.

#[global] Instance M_ret {R} : MRet (Go.M R) := fun A => @Go.ret R A.
#[global] Instance M_bind {R} : MBind (Go.M R) := fun A B f m => Go.bind m f.

(** ** io, time and net/http operations on the world *)
Module Rt.

Import Go.

(** [bytes.NewReader(b)]: a fresh reader object. *)
Definition NewReader {R} (r : Reader) : M R nat :=
  fun w => (inl (length (heap w)), set_heap (heap w ++ [r]) w).

(** [io.ReadAll(r)] and [buf.ReadFrom(r)]: everything the reader still has,
    with the error it ends with; the reader is left drained. *)
Definition ReadAll {R} (r : nat) : M R (list Byte.byte * option Error) :=
  fun w => match heap w !! r with
           | Some rd =>
               (inl (rest rd, broken rd),
                set_heap (<[r := mkReader [] (broken rd)]> (heap w)) w)
           | None => (inl ([], None), w)
           end.

(** [time.Sleep(d)]: not interruptible; returns at once when [d <= 0]. *)
Definition Sleep {R} (d : Z) : M R unit :=
  modify (fun w => set_now (now w + Z.max 0 d) w).

Definition Log {R} (e : Event) : M R unit := modify (add_event e).

End Rt.

(** ** net/http: requests, responses and the client's Do *)
Module Http.

Import Go.

Record Request := mkRequest {
  Method : string;
  URL : Url.URL;
  Hdr : Header.t;
  Body : option nat;       (* nil, or the address of the body reader *)
  reqCtx : Ctx.t;
}.

Record Response := mkResponse {
  StatusCode : Z;
  RespHeader : Header.t;
  RespBody : option nat;
}.

Record Client := mkClient {
  Timeout : Z;
}.

Definition set_Hdr (h : Header.t) (r : Request) : Request :=
  mkRequest (Method r) (URL r) h (Body r) (reqCtx r).
Definition set_Body (b : option nat) (r : Request) : Request :=
  mkRequest (Method r) (URL r) (Hdr r) b (reqCtx r).
Definition WithContext (ctx : Ctx.t) (r : Request) : Request :=
  mkRequest (Method r) (URL r) (Hdr r) (Body r) ctx.
Definition set_RespBody (b : option nat) (r : Response) : Response :=
  mkResponse (StatusCode r) (RespHeader r) b.

Definition validMethod (m : string) : bool :=
  negb (String.eqb m "") &&
  forallb Header.validHeaderFieldByte (list_ascii_of_string m).

(** [http.NewRequestWithContext].  The URL arrives printed by [URL.String]
    and is parsed again; the model hands the URL over as it is. *)
Definition NewRequestWithContext (ctx : Ctx.t) (method : string)
    (url : Url.URL) (body : option nat) : Error + Request :=
  let method := if String.eqb method "" then "GET" else method in
  if negb (validMethod method) then inl (ErrInvalidMethod method)
  else inr (mkRequest method url ∅ body ctx).

(** Whether the send that would end at [fin] is cut short: by the request's
    context, or by the client's own time limit [limit]. *)
Definition interrupted (ctx : Ctx.t) (limit : option Z) (fin : Z)
    : option (Z * Error) :=
  match Ctx.doneWithin ctx fin, limit with
  | Some (tc, e), Some l =>
      if l <? tc then Some (l, ErrClientTimeout) else Some (tc, e)
  | Some (tc, e), None => Some (tc, e)
  | None, Some l => if l <=? fin then Some (l, ErrClientTimeout) else None
  | None, None => None
  end.

(** [(c *http.Client).Do(req)].  A request whose context is already done is
    refused without touching the network.  Otherwise the transport reads the
    request body, puts the request on the wire and waits for the reply, for
    as long as the context and the client's [Timeout] allow.  The body is
    sent as it is read: the length that net/http records for a
    [*bytes.Buffer], [*bytes.Reader] or [*strings.Reader] body, and checks
    against what it reads, is not modelled. *)
Definition Do {R} (env : Env) (c : Client) (req : Request)
    : M R (option Response * option Error) :=
  modify add_call;;
  w ← get;
  let t := now w in
  match Ctx.Err (reqCtx req) t with
  | Some e => mret (None, Some e)
  | None =>
      '(body, berr) ← match Body req with
                       | Some r => Rt.ReadAll r
                       | None => mret ([], None)
                       end;
      let reply := net env (length (wire w)) in
      modify (add_sent (mkSent (Method req) (URL req) (Hdr req) body t));;
      match berr with
      | Some e => mret (None, Some e)
      | None =>
          let fin := t + Z.max 0 (latency reply) in
          let limit := if 0 <? Timeout c then Some (t + Timeout c) else None in
          match interrupted (reqCtx req) limit fin with
          | Some (t', e) => modify (set_now t');; mret (None, Some e)
          | None =>
              modify (set_now fin);;
              match answer reply with
              | inl e => mret (None, Some e)
              | inr (status, hdr, rd) =>
                  b ← Rt.NewReader rd;
                  mret (Some (mkResponse status hdr (Some b)), None)
              end
          end
      end
  end.

End Http.

(** ** package httpclient: CommonHTTPClient over net/http *)
Module Httpclient.

Import Go.

Record ClientConfig := mkClientConfig {
  BaseURL : option Url.URL;
  DefaultHeaders : gmap string string;
  DisableLogBody : bool;
  DisableLogHeaders : bool;
  DisableLogQuery : bool;
  MaxRetries : Z;
  RetryBackoff : Z;
  HTTPClient : option Http.Client;
}.

Record RequestOptions := mkRequestOptions {
  Path : string;
  Method : string;
  Headers : gmap string string;
  QueryParams : gmap string string;
  Body : option nat;
  Timeout : Z;
}.

Record CommonHTTPClient := mkCommonHTTPClient {
  baseURL : option Url.URL;
  defaultHeaders : gmap string string;
  disableLogBody : bool;
  disableLogHeaders : bool;
  disableLogQuery : bool;
  maxRetries : Z;
  retryBackoff : Z;
  client : Http.Client;
}.

Definition NewCommonHTTPClient (cfg : ClientConfig) : CommonHTTPClient :=
  let httpClient :=
    match HTTPClient cfg with
    | None => Http.mkClient (30 * Second)
    | Some hc => hc
    end in
  mkCommonHTTPClient (BaseURL cfg) (DefaultHeaders cfg) (DisableLogBody cfg)
    (DisableLogHeaders cfg) (DisableLogQuery cfg) (MaxRetries cfg)
    (RetryBackoff cfg) httpClient.

(** What [Do] returns: the pair [(resp, err)]. *)
Abbreviation Result := (option Http.Response * option Error)%type.

(** [for k, v := range m { h.Set(k, v) }] *)
Definition setAll {V} (set : string -> string -> V -> V) (env : Env)
    (m : gmap string string) (h : V) : V :=
  foldl (fun h kv => set kv.1 kv.2 h) h (range env (map_to_list m)).

Definition logRequest (c : CommonHTTPClient) (req : Http.Request)
    (body : option nat) : M Result Http.Request :=
  '(bodyStr, req) ←
    match body with
    | Some b =>
        if negb (disableLogBody c) then
          '(buf, err) ← Rt.ReadAll b;
          (* Recreate the body so it can be sent again *)
          nb ← Rt.NewReader (mkReader buf None);
          mret (if err is None then buf else [], Http.set_Body (Some nb) req)
        else mret ([], req)
    | None => mret ([], req)
    end;
  let headers :=
    if negb (disableLogHeaders c) then Some (Http.Hdr req) else None in
  let query :=
    if negb (disableLogQuery c) then Url.RawQuery (Http.URL req) else ∅ in
  Rt.Log (OutgoingRequest (Http.Method req) (Http.URL req) query headers bodyStr);;
  mret req.

Definition logResponse (c : CommonHTTPClient) (resp : Http.Response)
    (responseBody : list Byte.byte) : M Result unit :=
  let headers :=
    if negb (disableLogHeaders c) then Some (Http.RespHeader resp) else None in
  let bodyStr :=
    if negb (disableLogBody c) && (0 <? Z.of_nat (length responseBody))
    then responseBody else [] in
  Rt.Log (IncomingResponse (Http.StatusCode resp) headers bodyStr).

(** The retry loop of [Do], entered with the loop variables [attempt],
    [resp] and [lastErr]; it yields [resp] and [lastErr] as the code after
    the loop sees them. *)
Fixpoint retry_loop (env : Env) (fuel : nat) (c : CommonHTTPClient)
    (req : Http.Request) (attempt : Z) (resp : option Http.Response)
    (lastErr : option Error) : M Result Result :=
  match fuel with
  | O => exit Diverge
  | S fuel' =>
      if attempt <=? maxRetries c then
        '(resp, lastErr) ← Http.Do env (client c) req;
        match lastErr, resp with
        | None, None => exit NilPanic
        | None, Some r =>
            if Http.StatusCode r <? 500 then mret (resp, lastErr)
            else
              (if attempt <? maxRetries c then Rt.Sleep (retryBackoff c)
               else mret tt);;
              retry_loop env fuel' c req (Int64.succ attempt) resp lastErr
        | Some _, _ =>
            (if attempt <? maxRetries c then Rt.Sleep (retryBackoff c)
             else mret tt);;
            retry_loop env fuel' c req (Int64.succ attempt) resp lastErr
        end
      else mret (resp, lastErr)
  end.

(** The part of [Do] before the request is logged: the URL, the query
    parameters, the request, the headers and the per-request timeout. *)
Definition buildRequest (env : Env) (c : CommonHTTPClient) (ctx : Ctx.t)
    (opts : RequestOptions) : M Result Http.Request :=
  (* Construct the request URL *)
  reqURL ←
    match baseURL c with
    | Some base =>
        mret (Url.ResolveReference base (Url.mkURL "" "" (Path opts) ∅))
    | None =>
        match parse env (Path opts) with
        | inl err => exit (Return (None, Some err))
        | inr parsed => mret parsed
        end
    end;
  (* Add query parameters *)
  let reqURL :=
    if 0 <? Z.of_nat (size (QueryParams opts)) then
      Url.set_RawQuery
        (setAll Url.Set_ env (QueryParams opts) (Url.RawQuery reqURL)) reqURL
    else reqURL in
  (* Create the request *)
  req ←
    match Http.NewRequestWithContext ctx (Method opts) reqURL (Body opts) with
    | inl err => exit (Return (None, Some err))
    | inr req => mret req
    end;
  (* Apply default headers *)
  let req :=
    Http.set_Hdr (setAll Header.Set_ env (defaultHeaders c) (Http.Hdr req)) req in
  (* Apply request-specific headers *)
  let req :=
    Http.set_Hdr (setAll Header.Set_ env (Headers opts) (Http.Hdr req)) req in
  (* If a per-request timeout is set, create a context with timeout *)
  w ← get;
  mret (if 0 <? Timeout opts
        then Http.WithContext (Ctx.WithTimeout ctx (Timeout opts) (now w)) req
        else req).

(** The part of [Do] after the loop. *)
Definition finish (c : CommonHTTPClient) (req : Http.Request)
    (resp : option Http.Response) (lastErr : option Error)
    : M Result (Exit Result) :=
  match lastErr with
  | Some err =>
      (* This is a final error after retries *)
      Rt.Log (RequestFailed (Http.URL req) err);;
      mret (Return (None, Some err))
  | None =>
      match resp with
      | None => exit NilPanic
      | Some resp =>
          (* Read body for logging and then recreate a new ReadCloser *)
          '(resp, responseBody) ←
            match Http.RespBody resp with
            | Some b =>
                '(data, err) ← Rt.ReadAll b;
                match err with
                | Some e =>
                    Rt.Log (ErrorReadingBody (Http.URL req) e);;
                    exit (Return (None, Some e))
                | None =>
                    nb ← Rt.NewReader (mkReader data None);
                    mret (Http.set_RespBody (Some nb) resp, data)
                end
            | None => mret (resp, [])
            end;
          logResponse c resp responseBody;;
          mret (Return (Some resp, None))
      end
  end.

(** [Do].  [fuel] bounds the rounds of the retry loop. *)
Definition Do (env : Env) (fuel : nat) (c : CommonHTTPClient) (ctx : Ctx.t)
    (opts : RequestOptions) : World -> Exit Result * World :=
  run (
    req ← buildRequest env c ctx opts;
    (* Log the outgoing request *)
    req ← logRequest c req (Body opts);
    (* Perform retries *)
    '(resp, lastErr) ← retry_loop env fuel c req 0 None None;
    finish c req resp lastErr).

End Httpclient.

(** ** package hwaasresty: CommonHTTPClient over resty

    resty itself (its retries, its hooks, its transport) is not part of the
    repository: [execute] stands for [Request.Execute], whatever it does to
    the world. *)
Module Hwaasresty.

Import Go.

Record RestyRequest := mkRestyRequest {
  rContext : Ctx.t;
  rHeader : Header.t;
  rQueryParam : Url.Values;
  rBody : option (list Byte.byte);
}.

Record RestyResponse := mkRestyResponse {
  rStatusCode : Z;
  rRespHeader : Header.t;
  rRespBody : list Byte.byte;
  rRequestURL : string;
}.

Record RestyClient := mkRestyClient {
  rTimeout : Z;
  rRetryCount : Z;
  rRetryWaitTime : Z;
  rBaseURL : string;
}.

Record ClientConfig := mkClientConfig {
  BaseURL : option string;       (* the base URL, printed *)
  DefaultHeaders : gmap string string;
  DisableLogBody : bool;
  DisableLogHeaders : bool;
  DisableLogQuery : bool;
  MaxRetries : Z;
  RetryBackoff : Z;
  HTTPTimeout : Z;
}.

Record RequestOptions := mkRequestOptions {
  Path : string;
  Method : string;
  Headers : gmap string string;
  QueryParams : gmap string string;
  Body : option nat;
  Timeout : Z;
}.

Record CommonHTTPClient := mkCommonHTTPClient {
  client : RestyClient;
  defaultHeaders : gmap string string;
  disableLogBody : bool;
  disableLogHeaders : bool;
  disableLogQuery : bool;
}.

Definition NewCommonHTTPClient (cfg : ClientConfig) : CommonHTTPClient :=
  let timeout := if 0 <? HTTPTimeout cfg then HTTPTimeout cfg else 30 * Second in
  let '(count, wait) :=
    if 0 <? MaxRetries cfg then (MaxRetries cfg, RetryBackoff cfg)
    else (0, 100 * 1000000) in
  let base := default "" (BaseURL cfg) in
  mkCommonHTTPClient (mkRestyClient timeout count wait base)
    (DefaultHeaders cfg) (DisableLogBody cfg) (DisableLogHeaders cfg)
    (DisableLogQuery cfg).

Abbreviation Result := (option RestyResponse * option Error)%type.

(** The type of [Request.Execute(method, url)]. *)
Definition Executor : Type :=
  RestyClient -> string -> string -> RestyRequest -> M Result Result.

Definition supported : list string :=
  ["GET"; "POST"; "PUT"; "DELETE"; "PATCH"; "HEAD"].

Definition Do (env : Env) (execute : Executor) (c : CommonHTTPClient)
    (ctx : Ctx.t) (opts : RequestOptions) : World -> Exit Result * World :=
  run (
    let req := mkRestyRequest ctx ∅ ∅ None in
    (* Set headers *)
    let req :=
      mkRestyRequest (rContext req)
        (Httpclient.setAll Header.Set_ env (Headers opts)
           (Httpclient.setAll Header.Set_ env (defaultHeaders c) (rHeader req)))
        (rQueryParam req) (rBody req) in
    (* Set query params *)
    let req :=
      if 0 <? Z.of_nat (size (QueryParams opts)) then
        mkRestyRequest (rContext req) (rHeader req)
          (Httpclient.setAll Url.Set_ env (QueryParams opts) (rQueryParam req))
          (rBody req)
      else req in
    (* If a per-request timeout is set, configure a context-based timeout *)
    w ← get;
    let req :=
      if 0 <? Timeout opts then
        mkRestyRequest (Ctx.WithTimeout ctx (Timeout opts) (now w))
          (rHeader req) (rQueryParam req) (rBody req)
      else req in
    (* If there is a body, we need to read it fully to set in resty *)
    req ←
      match Body opts with
      | Some b =>
          '(data, err) ← Rt.ReadAll b;
          match err with
          | Some e => exit (Return (None, Some e))
          | None =>
              mret (mkRestyRequest (rContext req) (rHeader req)
                      (rQueryParam req) (Some data))
          end
      | None => mret req
      end;
    (* Perform request by Method *)
    '(resp, err) ←
      (if bool_decide (Method opts ∈ supported)
       then execute (client c) (Method opts) (Path opts) req
       else exit (Return (None, Some ErrUnsupportedMethod)));
    match err with
    | Some e =>
        match resp with
        | None => exit NilPanic
        | Some r =>
            Rt.Log (RequestFailed (Url.mkURL "" "" (rRequestURL r) ∅) e);;
            mret (Return (None, Some e))
        end
    | None => mret (Return (resp, None))
    end).

End Hwaasresty.

(** ** package httpclient2: the URL builder of Client *)
Module Httpclient2.

Inductive AuthMethod := AuthNone | AuthBasic | AuthBearer | AuthApiKey | AuthOAuth.

#[global] Instance AuthMethod_eq_dec : EqDecision AuthMethod.
Proof. solve_decision. Defined.

Record Client := mkClient {
  httpClient : Http.Client;
  baseURL : string;
  defaultHeaders : gmap string string;
  authMethod : AuthMethod;
  authConfig : gmap string string;
}.

(** [Request]; its [Body] plays no part in [buildURL] and is left out. *)
Record Request := mkRequest {
  Method : string;
  Path : string;
  Headers : gmap string string;
  Query : gmap string string;
}.

(** [buildURL]; the result is the URL that [parsedURL.String()] prints. *)
Definition buildURL (env : Env) (c : Client) (req : Request)
    : Error + Url.URL :=
  (* Combine base URL with request path *)
  let fullURL := baseURL c +:+ Path req in
  match parse env fullURL with
  | inl err => inl err
  | inr parsedURL =>
      (* Add query parameters *)
      let query := Httpclient.setAll Url.Add env (Query req) (Url.RawQuery parsedURL) in
      (* Handle API key in query if applicable *)
      let query :=
        if bool_decide (authMethod c = AuthApiKey) &&
           String.eqb (default "" (authConfig c !! "location")) "query"
        then Url.Add "api_key" (default "" (authConfig c !! "key")) query
        else query in
      inr (Url.set_RawQuery query parsedURL)
  end.

End Httpclient2.

(** ** The attempts of one run of the retry loop

    Vocabulary for the statements about [Httpclient.retry_loop]: the world
    in which the k-th attempt after attempt [a] starts when every attempt
    before it was retried, and what that attempt returns. *)
Module Run.

Import Httpclient.

Definition send (env : Env) (c : CommonHTTPClient) (req : Http.Request)
    : Go.M Result Result :=
  Http.Do env (client c) req.

(** The wait after attempt number [a]. *)
Definition after_attempt (c : CommonHTTPClient) (a : Z) (w : World) : World :=
  if a <? maxRetries c then set_now (now w + Z.max 0 (retryBackoff c)) w else w.

Fixpoint world_before (env : Env) (c : CommonHTTPClient) (req : Http.Request)
    (a : Z) (k : nat) (w : World) : World :=
  match k with
  | O => w
  | S k' =>
      world_before env c req (a + 1) k' (after_attempt c a (send env c req w).2)
  end.

Definition outcome (env : Env) (c : CommonHTTPClient) (req : Http.Request)
    (a : Z) (k : nat) (w : World) : Result + Go.Exit Result :=
  (send env c req (world_before env c req a k w)).1.

Definition world_after (env : Env) (c : CommonHTTPClient) (req : Http.Request)
    (a : Z) (k : nat) (w : World) : World :=
  (send env c req (world_before env c req a k w)).2.

(** An outcome after which the loop goes on: an error, or a status of 500
    and above. *)
Definition retriable (res : Result) : bool :=
  match res with
  | (Some r, None) => 500 <=? Http.StatusCode r
  | (None, None) => false
  | (_, Some _) => true
  end.

(** [Do] gets as far as the retry loop, with request [req] in world [w0]. *)
Definition enters_loop (env : Env) (c : CommonHTTPClient) (ctx : Ctx.t)
    (opts : RequestOptions) (w : World) (req : Http.Request) (w0 : World) : Prop :=
  ∃ req0 w1, buildRequest env c ctx opts w = (inl req0, w1)
    ∧ logRequest c req0 (Body opts) w1 = (inl req, w0).

(** The URL that [Do] resolves before it adds the query parameters. *)
Definition resolved (env : Env) (c : CommonHTTPClient) (opts : RequestOptions)
    (reqURL : Url.URL) : Prop :=
  match baseURL c with
  | Some base =>
      reqURL = Url.ResolveReference base (Url.mkURL "" "" (Path opts) ∅)
  | None => parse env (Path opts) = inr reqURL
  end.

(** The error, if any, that reading the body of [r] ends with. *)
Definition body_error (w : World) (r : Http.Response) : option Error :=
  match Http.RespBody r with
  | Some b => heap w !! b ≫= broken
  | None => None
  end.


(** Reader [b] exists and has nothing left to yield. *)
Definition drained (b : nat) (w : World) : Prop :=
  ∃ rd, heap w !! b = Some rd ∧ rest rd = [].

Definition no_body (s : Sent) : Prop := sent_body s = [].

Definition is_outgoing (e : Event) : bool :=
  match e with OutgoingRequest _ _ _ _ _ => true | _ => false end.
Definition is_incoming (e : Event) : bool :=
  match e with IncomingResponse _ _ _ => true | _ => false end.

Definition count (p : Event -> bool) (w : World) : nat :=
  length (List.filter p (log w)).

(** [Do] left by returning a response and a nil error. *)
Definition returns_response (res : Go.Exit Result) : bool :=
  match res with
  | Go.Return (Some _, None) => true
  | _ => false
  end.

End Run.

(** ** The wiring of the repository's Example functions, and scripted
    networks to run it against *)
Module Scenario.

Definition bytes (s : string) : list Byte.byte := list_byte_of_string s.

Definition reply (lat : Z) (status : Z) : Reply :=
  mkReply lat (inr (status, ∅, mkReader (bytes "{}") None)).

(** A network that answers every request with [status]. *)
Definition always (status : Z) : nat -> Reply := fun _ => reply 0 status.

(** A network that answers the n-th request with the n-th entry of [rs],
    and with [last] from then on. *)
Definition script (rs : list Reply) (last : Reply) : nat -> Reply :=
  fun n => nth n rs last.

(** [range] in the order of [map_to_list]; [url.Parse] is not called when a
    base URL is configured. *)
Definition env (network : nat -> Reply) : Env :=
  mkEnv (fun l => l) network (fun s => inl (ErrParse s)).

Definition baseURL : Url.URL :=
  Url.mkURL "https" "jsonplaceholder.typicode.com" "" ∅.

(** The client of [Example], with [MaxRetries] and [RetryBackoff] left
    open. *)
Definition client (retries backoff : Z) : Httpclient.CommonHTTPClient :=
  Httpclient.NewCommonHTTPClient
    (Httpclient.mkClientConfig (Some baseURL)
       {["Authorization" := "Bearer token"]} false false false
       retries backoff None).

(** The request of [Example]: GET /posts?limit=5 with a timeout. *)
Definition get_posts (timeout : Z) : Httpclient.RequestOptions :=
  Httpclient.mkRequestOptions "/posts" "GET" ∅ {["limit" := "5"]} None timeout.

(** A POST of the bytes held by reader 0. *)
Definition post_posts : Httpclient.RequestOptions :=
  Httpclient.mkRequestOptions "/posts" "POST" ∅ ∅ (Some 0%nat) 0.

Definition start : World := mkWorld 0 [] [] 0 [].






(** The request that [Do] builds from [get_posts timeout] at time 0, and the
    world once that request is logged. *)
Definition get_posts_request (timeout : Z) : Http.Request :=
  Http.mkRequest "GET"
    (Url.mkURL "https" "jsonplaceholder.typicode.com" "/posts" {["limit" := ["5"]]})
    {["Authorization" := ["Bearer token"]]} None
    (if 0 <? timeout then Ctx.mk (Some timeout) None else Ctx.Background).

Definition get_posts_logged (timeout : Z) : World :=
  add_event
    (OutgoingRequest "GET" (Http.URL (get_posts_request timeout))
       {["limit" := ["5"]]} (Some {["Authorization" := ["Bearer token"]]}) [])
    start.

(** A world whose reader 0 holds [data]. *)
Definition start_with (data : string) : World :=
  mkWorld 0 [mkReader (bytes data) None] [] 0 [].

(** A resty that cannot reach anything. *)
Definition unreachable : Hwaasresty.Executor :=
  fun _ _ _ _ => Go.ret (None, Some (ErrTransport "unreachable")).

Definition resty_client : Hwaasresty.CommonHTTPClient :=
  Hwaasresty.NewCommonHTTPClient
    (Hwaasresty.mkClientConfig (Some "https://jsonplaceholder.typicode.com")
       {["Authorization" := "Bearer token"]} false false false 3 Second
       (30 * Second)).

(** A request with a method outside the supported ones, and the body held
    by reader 0. *)
Definition foo_posts : Hwaasresty.RequestOptions :=
  Hwaasresty.mkRequestOptions "/posts" "FOO" ∅ ∅ (Some 0%nat) 0.

(** A world whose reader 0 fails. *)
Definition start_broken : World :=
  mkWorld 0 [mkReader [] (Some (ErrRead "unexpected EOF"))] [] 0 [].

End Scenario.

(** * Properties *)

Import Go.

Ltac go_unfold :=
unfold mbind, mret, M_bind, M_ret, Go.bind, Go.ret, Go.exit, Go.get,
  Go.modify, Rt.Sleep, Rt.Log, Rt.ReadAll, Rt.NewReader in *.

(** ** The library models on known cases *)

(** Reference resolution on the examples of RFC 3986, section 5.4, with the
    base path "/b/c/d;p". *)
Example resolvePath_rfc_g : Url.resolvePath "/b/c/d;p" "g" = "/b/c/g".
Proof. reflexivity. Qed.
Example resolvePath_rfc_g_slash : Url.resolvePath "/b/c/d;p" "g/" = "/b/c/g/".
Proof. reflexivity. Qed.
Example resolvePath_rfc_abs : Url.resolvePath "/b/c/d;p" "/g" = "/g".
Proof. reflexivity. Qed.
Example resolvePath_rfc_empty : Url.resolvePath "/b/c/d;p" "" = "/b/c/d;p".
Proof. reflexivity. Qed.
Example resolvePath_rfc_dot : Url.resolvePath "/b/c/d;p" "." = "/b/c/".
Proof. reflexivity. Qed.
Example resolvePath_rfc_dotdot : Url.resolvePath "/b/c/d;p" ".." = "/b/".
Proof. reflexivity. Qed.
Example resolvePath_rfc_up_g : Url.resolvePath "/b/c/d;p" "../g" = "/b/g".
Proof. reflexivity. Qed.
Example resolvePath_rfc_up_up_g : Url.resolvePath "/b/c/d;p" "../../g" = "/g".
Proof. reflexivity. Qed.
Example resolvePath_rfc_too_far : Url.resolvePath "/b/c/d;p" "../../../g" = "/g".
Proof. reflexivity. Qed.
Example resolvePath_rfc_inner : Url.resolvePath "/b/c/d;p" "g/../h" = "/b/c/h".
Proof. reflexivity. Qed.
Example resolvePath_no_base_path : Url.resolvePath "" "posts" = "/posts".
Proof. reflexivity. Qed.

Example canonical_lower : Header.CanonicalMIMEHeaderKey "authorization" = "Authorization".
Proof. reflexivity. Qed.
Example canonical_mixed : Header.CanonicalMIMEHeaderKey "x-API-key" = "X-Api-Key".
Proof. reflexivity. Qed.
Example canonical_not_token : Header.CanonicalMIMEHeaderKey "a b" = "a b".
Proof. reflexivity. Qed.

(** The run of section 8 of the design: two retries, a backoff of 10 ms, a
    transport error, then a 500, then a 200: three attempts, the 200 is
    returned, and 20 ms have passed. *)
Example Do_error_500_200 :
  let env :=
    Scenario.env
      (Scenario.script
         [mkReply 0 (inl (ErrTransport "connection refused")); Scenario.reply 0 500]
         (Scenario.reply 0 200)) in
  let run := Httpclient.Do env 5 (Scenario.client 2 (10 * 1000000)) Ctx.Background
               (Scenario.get_posts 0) Scenario.start in
  calls run.2 = 3%nat ∧ now run.2 = 20 * 1000000
  ∧ ∃ r, run.1 = Go.Return (Some r, None) ∧ Http.StatusCode r = 200.
Proof.
  cbv zeta. split; [ vm_compute; reflexivity |]. split; [ vm_compute; reflexivity |].
  eexists. split; vm_compute; reflexivity.
Qed.

(** ** The HTTP client's Do *)
Section HttpDo.
Context (env : Env) (cl : Http.Client) (req : Http.Request).

(** It always returns, with a response or with an error, counts as one
    call and logs nothing. *)
Lemma Http_Do_total (R : Type) (w : World) :
  ∃ resp err w', @Http.Do R env cl req w = (inl (resp, err), w')
    ∧ calls w' = S (calls w) ∧ log w' = log w
    ∧ ((∃ r, resp = Some r ∧ err = None) ∨ (resp = None ∧ ∃ e, err = Some e)).
Proof.
  unfold Http.Do. go_unfold. cbn.
  destruct (Ctx.Err _ _) as [e|]; [ naive_solver |].
  destruct (Http.Body req) as [b|]; cbn.
  - destruct (heap w !! b) as [rd|]; cbn.
    + destruct (broken rd); cbn; [naive_solver|].
      destruct (Http.interrupted _ _ _) as [[t' e]|]; cbn; [naive_solver|].
      destruct (answer _) as [e|[[st h] rd']]; cbn; naive_solver.
    + destruct (Http.interrupted _ _ _) as [[t' e]|]; cbn; [naive_solver|].
      destruct (answer _) as [e|[[st h] rd']]; cbn; naive_solver.
  - destruct (Http.interrupted _ _ _) as [[t' e]|]; cbn; [naive_solver|].
    destruct (answer _) as [e|[[st h] rd']]; cbn; naive_solver.
Qed.

(** A request whose context is done is refused on the spot. *)
Lemma Http_Do_done (R : Type) (w : World) (e : Error) :
  Ctx.Err (Http.reqCtx req) (now w) = Some e →
  @Http.Do R env cl req w = (inl (None, Some e), add_call w).
Proof.
  intros H. unfold Http.Do. go_unfold. cbn. by rewrite H.
Qed.
End HttpDo.

Lemma Int64_succ_small (a : Z) :
Int64.min_int <= a < Int64.max_int → Int64.succ a = a + 1.
Proof.
unfold Int64.succ, Int64.wrap, Int64.min_int, Int64.max_int. intros H.
rewrite Z.mod_small; lia.
Qed.

(** ** The retry loop, one round at a time *)
Section Loop.
Import Httpclient Run.
Context (env : Env) (c : CommonHTTPClient) (req : Http.Request).

Lemma send_total (w : World) :
  ∃ resp err w', send env c req w = (inl (resp, err), w')
    ∧ calls w' = S (calls w) ∧ log w' = log w
    ∧ ((∃ r, resp = Some r ∧ err = None) ∨ (resp = None ∧ ∃ e, err = Some e)).
Proof. apply Http_Do_total. Qed.

Lemma retry_loop_exit fuel a resp err w :
  maxRetries c < a →
  retry_loop env (S fuel) c req a resp err w = (inl (resp, err), w).
Proof.
  intros H. cbn. destruct (Z.leb_spec a (maxRetries c)); [lia | done].
Qed.


Lemma retry_loop_retry fuel a resp err w res w1 :
  0 <= a <= maxRetries c → a < Int64.max_int →
  send env c req w = (inl res, w1) →
  retriable res = true →
  retry_loop env (S fuel) c req a resp err w =
  retry_loop env fuel c req (a + 1) res.1 res.2 (after_attempt c a w1).
Proof.
  intros Ha Hm Hs Hr. cbn. destruct (Z.leb_spec a (maxRetries c)); [|lia].
  go_unfold. unfold send in Hs. rewrite Hs.
  rewrite Int64_succ_small by (unfold Int64.min_int; lia).
  unfold after_attempt.
  destruct res as [[r|] [e|]]; cbn in *; try done.
  - destruct (a <? maxRetries c); done.
  - destruct (Z.ltb_spec (Http.StatusCode r) 500); [lia|].
    destruct (a <? maxRetries c); done.
  - destruct (a <? maxRetries c); done.
Qed.
End Loop.
Section LoopRuns.
Import Httpclient Run.
Context (env : Env) (c : CommonHTTPClient) (req : Http.Request).

Lemma world_before_calls a k w :
  calls (world_before env c req a k w) = (calls w + k)%nat
  ∧ log (world_before env c req a k w) = log w.
Proof.
  revert a w. induction k as [|k IH]; intros a w; cbn.
  - split; [lia | done].
  - destruct (send_total env c req w) as (resp & err & w' & Hs & Hc & Hl & _).
    rewrite Hs. cbn. destruct (IH (a + 1) (after_attempt c a w')) as [IH1 IH2].
    rewrite IH1, IH2. unfold after_attempt.
    destruct (a <? maxRetries c); cbn; split; (lia || congruence).
Qed.

(** When the attempts [a], [a+1], ..., [maxRetries] all end in a retriable
    way, the loop makes them all and leaves with what the last one
    returned. *)
Lemma retry_loop_exhaust n : ∀ fuel a resp err w,
  0 <= a → a + Z.of_nat n = maxRetries c → maxRetries c < Int64.max_int →
  (S n < fuel)%nat →
  (∀ k, (k ≤ n)%nat → ∃ res, outcome env c req a k w = inl res ∧ retriable res = true) →
  ∃ res, outcome env c req a n w = inl res
    ∧ retry_loop env fuel c req a resp err w =
      (inl res, world_after env c req a n w).
Proof.
  induction n as [|n IH]; intros fuel a resp err w Ha Hn Hm Hf Hall.
  - destruct (Hall 0%nat) as (res & Ho & Hr); [lia|].
    exists res. split; [done|].
    destruct fuel as [|[|fuel]]; [lia | lia |].
    unfold outcome, world_after in *. cbn [world_before] in *.
    destruct (send env c req w) as [o w1] eqn:Hs. cbn in Ho. subst o.
    erewrite retry_loop_retry; [| lia | lia | exact Hs | done ].
    rewrite retry_loop_exit by lia.
    unfold after_attempt. destruct (Z.ltb_spec a (maxRetries c)); [lia|].
    by destruct res.
  - destruct (Hall 0%nat) as (res & Ho & Hr); [lia|].
    destruct fuel as [|fuel]; [lia|].
    unfold outcome in Ho. cbn in Ho.
    destruct (send env c req w) as [o w1] eqn:Hs. cbn in Ho. subst o.
    erewrite retry_loop_retry; [| lia | lia | exact Hs | done ].
    destruct (IH fuel (a + 1) res.1 res.2 (after_attempt c a w1))
      as (res' & Ho' & Hl'); [lia | lia | lia | lia | |].
    + intros k Hk. destruct (Hall (S k)) as (rk & Hok & Hrk); [lia|].
      exists rk. split; [|done].
      unfold outcome in *. cbn in Hok. by rewrite Hs in Hok.
    + exists res'. unfold outcome, world_after in *. cbn. rewrite Hs. cbn.
      split; [done|]. exact Hl'.
Qed.
End LoopRuns.
(** ** Before and after the loop *)
Section AroundLoop.
Import Httpclient Run.
Context (env : Env) (c : CommonHTTPClient).

Lemma count_add_event p e w :
  count p (add_event e w) = (count p w + if p e then 1 else 0)%nat.
Proof.
  unfold count, add_event. cbn. rewrite List.filter_app, length_app. cbn.
  destruct (p e); cbn; lia.
Qed.

Lemma finish_error req resp e w :
  run (finish c req resp (Some e)) w =
  (Return (None, Some e), add_event (RequestFailed (Http.URL req) e) w).
Proof. done. Qed.

Lemma finish_response req r w :
  ∃ res w', run (finish c req (Some r) None) w = (res, w')
    ∧ calls w' = calls w ∧ wire w' = wire w ∧ now w' = now w
    ∧ count is_outgoing w' = count is_outgoing w
    ∧ match body_error w r with
      | None =>
          (∃ b, res = Return (Some (Http.set_RespBody b r), None))
          ∧ count is_incoming w' = S (count is_incoming w)
      | Some e =>
          res = Return (None, Some e)
          ∧ count is_incoming w' = count is_incoming w
      end.
Proof.
  unfold finish, run, body_error, logResponse. go_unfold.
  destruct r as [st h [b|]]; cbn.
  - destruct (heap w !! b) as [rd|] eqn:Hb; cbn.
    + destruct (broken rd) as [e|]; cbn.
      * eexists _, _. split; [done|]. rewrite !count_add_event. cbn.
        unfold count. cbn. repeat split; lia.
      * eexists _, _. split; [done|]. rewrite !count_add_event. cbn.
        unfold count. cbn. repeat split; eauto; lia.
    + eexists _, _. split; [done|]. rewrite !count_add_event. cbn.
      unfold count. cbn. repeat split; eauto; lia.
  - eexists _, _. split; [done|]. rewrite !count_add_event. cbn.
    repeat split; eauto; lia.
Qed.

(** Building and logging the request touches neither the network nor the
    clock, and logs the one "Outgoing request" event. *)
Lemma enters_loop_world ctx opts w req w0 :
  enters_loop env c ctx opts w req w0 →
  calls w0 = calls w ∧ wire w0 = wire w ∧ now w0 = now w
  ∧ count is_outgoing w0 = S (count is_outgoing w)
  ∧ count is_incoming w0 = count is_incoming w.
Proof.
  intros (req0 & w1 & Hb & Hl).
  assert (w1 = w) as ->.
  { unfold buildRequest in Hb. go_unfold.
    destruct (baseURL c); cbn in Hb.
    - destruct (Http.NewRequestWithContext _ _ _ _); cbn in Hb; congruence.
    - destruct (parse env _); cbn in Hb; [congruence|].
      destruct (Http.NewRequestWithContext _ _ _ _); cbn in Hb; congruence. }
  clear Hb. unfold logRequest in Hl. go_unfold.
  destruct (Body opts) as [b|]; cbn in Hl.
  - destruct (disableLogBody c); cbn in Hl.
    + inversion Hl; subst. rewrite !count_add_event. cbn. repeat split; lia.
    + destruct (heap w !! b) as [rd|]; cbn in Hl.
      * destruct (broken rd); cbn in Hl; inversion Hl; subst;
          rewrite !count_add_event; cbn; unfold count; cbn; repeat split; lia.
      * inversion Hl; subst.
        rewrite !count_add_event; cbn; unfold count; cbn; repeat split; lia.
  - inversion Hl; subst. rewrite !count_add_event. cbn. repeat split; lia.
Qed.

Lemma Do_after_loop fuel ctx opts w req w0 resp err w1 :
  enters_loop env c ctx opts w req w0 →
  retry_loop env fuel c req 0 None None w0 = (inl (resp, err), w1) →
  Do env fuel c ctx opts w = run (finish c req resp err) w1.
Proof.
  intros (req0 & w' & Hb & Hl) Hloop. unfold Do, run. go_unfold.
  rewrite Hb, Hl, Hloop. done.
Qed.

Lemma Do_loop_exit fuel ctx opts w req w0 e w1 :
  enters_loop env c ctx opts w req w0 →
  retry_loop env fuel c req 0 None None w0 = (inr e, w1) →
  Do env fuel c ctx opts w = (e, w1).
Proof.
  intros (req0 & w' & Hb & Hl) Hloop. unfold Do, run. go_unfold.
  rewrite Hb, Hl, Hloop. done.
Qed.
End AroundLoop.
(** ** Retries exhausted on server errors *)
Section ServerErrors.
Import Httpclient Run.

(** C1, as amended.  When every attempt is answered with a status of 500
    or above, [Do] makes exactly [maxRetries + 1] calls of the HTTP client
    and then hands the caller the last such response itself, with a nil
    error (or the error that reading its body ended with): no error is
    made from the status. *)
Theorem Do_all_5xx env c ctx opts w req w0 fuel :
  enters_loop env c ctx opts w req w0 →
  0 <= maxRetries c < Int64.max_int →
  (Z.to_nat (maxRetries c) + 1 < fuel)%nat →
  (∀ k, (k ≤ Z.to_nat (maxRetries c))%nat →
     ∃ r, outcome env c req 0 k w0 = inl (Some r, None)
          ∧ 500 <= Http.StatusCode r) →
  ∃ r res w',
    outcome env c req 0 (Z.to_nat (maxRetries c)) w0 = inl (Some r, None)
    ∧ 500 <= Http.StatusCode r
    ∧ Do env fuel c ctx opts w = (res, w')
    ∧ calls w' = (calls w + Z.to_nat (maxRetries c) + 1)%nat
    ∧ match body_error (world_after env c req 0 (Z.to_nat (maxRetries c)) w0) r with
      | None => ∃ b, res = Return (Some (Http.set_RespBody b r), None)
      | Some e => res = Return (None, Some e)
      end.
Proof.
  intros Hin HN Hfuel Hall.
  destruct (Hall (Z.to_nat (maxRetries c))) as (r & Hr & Hst); [lia|].
  destruct (retry_loop_exhaust env c req (Z.to_nat (maxRetries c)) fuel 0 None None w0)
    as (res0 & Ho & Hloop); [lia | lia | lia | lia | |].
  { intros k Hk. destruct (Hall k Hk) as (rk & Hrk & Hsk).
    exists (Some rk, None). split; [done|]. cbn. lia. }
  rewrite Hr in Ho. inversion Ho; subst res0.
  destruct (finish_response c req r (world_after env c req 0 (Z.to_nat (maxRetries c)) w0))
    as (res & w' & Hfin & Hc & _ & _ & _ & Hres).
  exists r, res, w'. split; [done|]. split; [done|].
  split; [ by rewrite (Do_after_loop env c fuel ctx opts w req w0 _ _ _ Hin Hloop) |].
  split.
  - rewrite Hc. unfold world_after.
    destruct (send_total env c req (world_before env c req 0 (Z.to_nat (maxRetries c)) w0))
      as (? & ? & w1 & Hs & Hc1 & _). rewrite Hs. cbn. rewrite Hc1.
    destruct (world_before_calls env c req 0 (Z.to_nat (maxRetries c)) w0) as [-> _].
    destruct (enters_loop_world env c ctx opts w req w0 Hin) as (-> & _). lia.
  - destruct (body_error _ r); [ apply Hres | apply Hres ].
Qed.

Lemma Do_all_5xx_witness :
  let env := Scenario.env (Scenario.always 503) in
  let c := Scenario.client 3 Second in
  let req := Scenario.get_posts_request (5 * Second) in
  let w0 := Scenario.get_posts_logged (5 * Second) in
  ∃ r res w',
    outcome env c req 0 3 w0 = inl (Some r, None)
    ∧ 500 <= Http.StatusCode r
    ∧ Do env 5 c Ctx.Background (Scenario.get_posts (5 * Second)) Scenario.start = (res, w')
    ∧ calls w' = 4%nat
    ∧ match body_error (world_after env c req 0 3 w0) r with
      | None => ∃ b, res = Return (Some (Http.set_RespBody b r), None)
      | Some e => res = Return (None, Some e)
      end.
Proof.
  intros env c req w0.
  apply (Do_all_5xx env c Ctx.Background (Scenario.get_posts (5 * Second))
           Scenario.start req w0 5%nat).
  - eexists _, _. split; vm_compute; reflexivity.
  - vm_compute. split; [ congruence | done ].
  - vm_compute. lia.
  - intros k Hk. change (Z.to_nat (maxRetries c)) with 3%nat in Hk.
    destruct k as [|[|[|[|k]]]]; [ | | | | lia ];
      (eexists; split; [ vm_compute; reflexivity | vm_compute; congruence ]).
Defined.
End ServerErrors.
Section TransportErrors.
Import Httpclient Run.

(** When every attempt ends in an error, [Do] makes its [maxRetries + 1]
    calls, logs the failure and returns the error of the last attempt as it
    is. *)
Lemma Do_all_errors env c ctx opts w req w0 fuel :
  enters_loop env c ctx opts w req w0 →
  0 <= maxRetries c < Int64.max_int →
  (Z.to_nat (maxRetries c) + 1 < fuel)%nat →
  (∀ k, (k ≤ Z.to_nat (maxRetries c))%nat →
     ∃ resp e, outcome env c req 0 k w0 = inl (resp, Some e)) →
  ∃ resp e,
    outcome env c req 0 (Z.to_nat (maxRetries c)) w0 = inl (resp, Some e)
    ∧ Do env fuel c ctx opts w =
      (Return (None, Some e),
       add_event (RequestFailed (Http.URL req) e)
         (world_after env c req 0 (Z.to_nat (maxRetries c)) w0)).
Proof.
  intros Hin HN Hfuel Hall.
  destruct (Hall (Z.to_nat (maxRetries c))) as (resp & e & Hr); [lia|].
  destruct (retry_loop_exhaust env c req (Z.to_nat (maxRetries c)) fuel 0 None None w0)
    as (res0 & Ho & Hloop); [lia | lia | lia | lia | |].
  { intros k Hk. destruct (Hall k Hk) as (rk & ek & Hrk).
    exists (rk, Some ek). split; [done|]. by destruct rk. }
  rewrite Hr in Ho. inversion Ho; subst res0.
  exists resp, e. split; [done|].
  rewrite (Do_after_loop env c fuel ctx opts w req w0 _ _ _ Hin Hloop).
  apply finish_error.
Qed.
End TransportErrors.

Section ServerErrorsExample.
Import Httpclient Run.

(** C1 as stated fails: with [MaxRetries = 3] and a network that always
    answers 503, [Do] makes its 4 calls and then returns the 503 response
    with a nil error; the caller gets no error at all. *)
Lemma all_5xx_returns_response :
  let run := Do (Scenario.env (Scenario.always 503)) 5 (Scenario.client 3 Second)
               Ctx.Background (Scenario.get_posts (5 * Second)) Scenario.start in
  calls run.2 = 4%nat
  ∧ (∃ r, run.1 = Return (Some r, None) ∧ Http.StatusCode r = 503)
  ∧ ¬ (∃ e, run.1 = Return (None, Some e)).
Proof.
  cbv zeta. split; [ vm_compute; reflexivity |]. split.
  - eexists. split; vm_compute; reflexivity.
  - intros [e He]. vm_compute in He. discriminate He.
Qed.
End ServerErrorsExample.

(** ** Responses below 500 end the loop *)
Section Terminal.
Import Httpclient Run.


End Terminal.
(** ** What the code after the loop can see *)
Section AfterLoop.
Import Httpclient Run.
Context (env : Env) (c : CommonHTTPClient) (req : Http.Request).

Lemma after_attempt_same a w :
  calls (after_attempt c a w) = calls w ∧ log (after_attempt c a w) = log w
  ∧ wire (after_attempt c a w) = wire w.
Proof. unfold after_attempt. by destruct (a <? maxRetries c). Qed.

Lemma retry_loop_unfold fuel a resp err w res w1 :
  a <= maxRetries c →
  send env c req w = (inl res, w1) →
  retry_loop env (S fuel) c req a resp err w =
  match res with
  | (None, None) => (inr NilPanic, w1)
  | (Some r, None) =>
      if Http.StatusCode r <? 500 then (inl res, w1)
      else retry_loop env fuel c req (Int64.succ a) res.1 res.2 (after_attempt c a w1)
  | (_, Some _) =>
      retry_loop env fuel c req (Int64.succ a) res.1 res.2 (after_attempt c a w1)
  end.
Proof.
  intros Ha Hs. cbn. destruct (Z.leb_spec a (maxRetries c)); [|lia].
  go_unfold. unfold send in Hs. rewrite Hs. unfold after_attempt.
  destruct res as [[r|] [e|]]; cbn; try done.
  - by destruct (a <? maxRetries c).
  - destruct (Http.StatusCode r <? 500); [done|]. by destruct (a <? maxRetries c).
  - by destruct (a <? maxRetries c).
Qed.

(** The loop logs nothing, never panics, and when it leaves after at
    least one round it holds a response or an error. *)
Lemma retry_loop_inv fuel : ∀ a resp err w out w',
  retry_loop env fuel c req a resp err w = (out, w') →
  log w' = log w
  ∧ match out with
    | inl (resp', err') =>
        (maxRetries c < a ∧ resp' = resp ∧ err' = err ∧ w' = w)
        ∨ (a <= maxRetries c ∧ (calls w < calls w')%nat
           ∧ ¬ (resp' = None ∧ err' = None))
    | inr e => e = Diverge
    end.
Proof.
  induction fuel as [|fuel IH]; intros a resp err w out w' H.
  - cbn in H. inversion H; subst. done.
  - destruct (Z.leb_spec a (maxRetries c)) as [Ha|Ha].
    + destruct (send_total env c req w)
        as (r1 & e1 & w1 & Hs & Hc & Hl & Hcase).
      rewrite (retry_loop_unfold fuel a resp err w _ w1 Ha Hs) in H.
      assert (∀ out w', retry_loop env fuel c req (Int64.succ a) r1 e1
                 (after_attempt c a w1) = (out, w') →
               ¬ (r1 = None ∧ e1 = None) →
               log w' = log w ∧ match out with
                 | inl (resp', err') =>
                     (maxRetries c < a ∧ resp' = resp ∧ err' = err ∧ w' = w)
                     ∨ (a <= maxRetries c ∧ (calls w < calls w')%nat
                        ∧ ¬ (resp' = None ∧ err' = None))
                 | inr e => e = Diverge
                 end) as Hrec.
      { intros out0 w0 H0 Hne. apply IH in H0 as [H0l H0].
        destruct (after_attempt_same a w1) as (Hac & Hal & _).
        split; [congruence|].
        destruct out0 as [[resp' err']|e]; [|done].
        right. split; [done|].
        destruct H0 as [(_ & -> & -> & ->)|(_ & Hlt & Hn)].
        - split; [lia | done].
        - split; [lia | done]. }
      destruct Hcase as [(r & -> & ->)|(-> & e & ->)]; cbn in H.
      * destruct (Http.StatusCode r <? 500).
        -- inversion H; subst. split; [done|]. right.
           split; [done|]. split; [lia|]. by intros [? _].
        -- apply Hrec; [done | by intros [? _]].
      * apply Hrec; [done | by intros [_ ?]].
    + rewrite retry_loop_exit in H by lia. inversion H; subst.
      split; [done|]. by left.
Qed.

(** With enough fuel the loop leaves with its two variables, unless
    [attempt] can wrap around. *)
Lemma retry_loop_returns n : ∀ fuel a resp err w,
  0 <= a → a + Z.of_nat n = maxRetries c + 1 →
  maxRetries c < Int64.max_int → (n < fuel)%nat →
  ∃ resp' err' w', retry_loop env fuel c req a resp err w = (inl (resp', err'), w').
Proof.
  induction n as [|n IH]; intros fuel a resp err w Ha Hn Hm Hf.
  - destruct fuel as [|fuel]; [lia|]. rewrite retry_loop_exit by lia. eauto.
  - destruct fuel as [|fuel]; [lia|].
    destruct (send_total env c req w) as (r1 & e1 & w1 & Hs & _ & _ & Hcase).
    rewrite (retry_loop_unfold fuel a resp err w _ w1 ltac:(lia) Hs).
    rewrite Int64_succ_small by (unfold Int64.min_int; lia).
    destruct Hcase as [(r & -> & ->)|(-> & e & ->)]; cbn.
    + destruct (Http.StatusCode r <? 500); [eauto|]. apply IH; lia.
    + apply IH; lia.
Qed.

Lemma Int64_succ_range (a : Z) :
  Int64.min_int <= Int64.succ a <= Int64.max_int.
Proof.
  unfold Int64.succ, Int64.wrap, Int64.min_int, Int64.max_int.
  pose proof (Z.mod_pos_bound (a + 1 + 2 ^ 63) (2 ^ 64) ltac:(lia)). lia.
Qed.

(** With [maxRetries] at the largest [int], [attempt++] wraps around and
    [attempt <= maxRetries] never fails: against a transport that never
    gives a final answer the loop does not end. *)
Lemma retry_loop_never_ends :
  maxRetries c = Int64.max_int →
  (∀ w, ∃ res w', send env c req w = (inl res, w') ∧ retriable res = true) →
  ∀ fuel a resp err w,
    Int64.min_int <= a <= Int64.max_int →
    ∃ w', retry_loop env fuel c req a resp err w = (inr Diverge, w').
Proof.
  intros Hmax Hall. induction fuel as [|fuel IH]; intros a resp err w Ha.
  - cbn. eauto.
  - destruct (Hall w) as (res & w1 & Hs & Hr).
    rewrite (retry_loop_unfold fuel a resp err w _ w1 ltac:(lia) Hs).
    pose proof (Int64_succ_range a) as Hsucc.
    destruct res as [[r|] [e|]]; cbn in Hr |- *; try done.
    + by apply IH.
    + destruct (Z.ltb_spec (Http.StatusCode r) 500); [lia|]. by apply IH.
    + by apply IH.
Qed.
End AfterLoop.

Section AtLeastOnce.
Import Httpclient Run.

(** C10.  With [maxRetries >= 0] the loop makes at least one attempt
    before it leaves, so the code after it never sees [resp] and [lastErr]
    both nil; and it does leave, given fuel for [maxRetries + 1] rounds.
    With [maxRetries < 0] the body is skipped: both stay nil, no attempt is
    made, and [Do] dereferences the nil response. *)
Theorem retry_loop_attempts_once env c ctx opts w req w0 fuel :
  enters_loop env c ctx opts w req w0 →
  (0 <= maxRetries c →
     (∀ resp err w',
        retry_loop env fuel c req 0 None None w0 = (inl (resp, err), w') →
        (calls w0 < calls w')%nat ∧ ¬ (resp = None ∧ err = None))
     ∧ (maxRetries c < Int64.max_int →
        (Z.to_nat (maxRetries c) + 1 < fuel)%nat →
        ∃ resp err w',
          retry_loop env fuel c req 0 None None w0 = (inl (resp, err), w')))
  ∧ (maxRetries c < 0 → (0 < fuel)%nat →
     retry_loop env fuel c req 0 None None w0 = (inl (None, None), w0)
     ∧ Do env fuel c ctx opts w = (NilPanic, w0)).
Proof.
  intros Hin. split.
  - intros HN. split.
    + intros resp err w' H. apply retry_loop_inv in H as [_ H].
      destruct H as [(? & _)|(_ & ? & ?)]; [lia | done].
    + intros Hm Hf.
      apply (retry_loop_returns env c req (Z.to_nat (maxRetries c) + 1)); lia.
  - intros HN Hf. destruct fuel as [|fuel]; [lia|].
    rewrite retry_loop_exit by lia. split; [done|].
    by rewrite (Do_after_loop env c (S fuel) ctx opts w req w0 None None w0 Hin)
      by (by rewrite retry_loop_exit by lia).
Qed.

Lemma retry_loop_attempts_once_witness :
  let env := Scenario.env (Scenario.always 503) in
  (∃ resp err w',
     retry_loop env 5 (Scenario.client 3 Second) (Scenario.get_posts_request 0)
       0 None None (Scenario.get_posts_logged 0) = (inl (resp, err), w')
     ∧ (0 < calls w')%nat ∧ ¬ (resp = None ∧ err = None))
  ∧ Do env 5 (Scenario.client (-1) Second) Ctx.Background (Scenario.get_posts 0)
      Scenario.start = (NilPanic, Scenario.get_posts_logged 0).
Proof.
  intros env. split.
  - destruct (retry_loop_attempts_once env (Scenario.client 3 Second) Ctx.Background
                (Scenario.get_posts 0) Scenario.start (Scenario.get_posts_request 0)
                (Scenario.get_posts_logged 0) 5) as [H _].
    { eexists _, _. split; vm_compute; reflexivity. }
    destruct H as [Hsafe Hret]; [ vm_compute; congruence |].
    destruct Hret as (resp & err & w' & Hloop);
      [ vm_compute; reflexivity | vm_compute; lia |].
    exists resp, err, w'. split; [exact Hloop|]. exact (Hsafe _ _ _ Hloop).
  - destruct (retry_loop_attempts_once env (Scenario.client (-1) Second) Ctx.Background
                (Scenario.get_posts 0) Scenario.start (Scenario.get_posts_request 0)
                (Scenario.get_posts_logged 0) 5) as [_ H].
    { eexists _, _. split; vm_compute; reflexivity. }
    destruct H as [_ H]; [ vm_compute; reflexivity | lia | exact H ].
Defined.
End AtLeastOnce.
(** ** A context that is done while the loop waits *)
Section Cancellation.
Import Httpclient Run.
Context (env : Env) (c : CommonHTTPClient) (req : Http.Request).

(** Once a context is done it stays done, with the same error. *)
Lemma Ctx_Err_stable ctx t t' e :
  Ctx.Err ctx t = Some e → t <= t' → Ctx.Err ctx t' = Some e.
Proof.
  unfold Ctx.Err, Ctx.reached.
  destruct ctx as [[d|] [x|]]; cbn; intros H Ht;
    repeat match goal with
           | |- context [?a <=? ?b] => destruct (Z.leb_spec a b)
           | H : context [?a <=? ?b] |- _ => destruct (Z.leb_spec a b)
           | |- context [?a <? ?b] => destruct (Z.ltb_spec a b)
           | H : context [?a <? ?b] |- _ => destruct (Z.ltb_spec a b)
           end; try done; try lia.
Qed.

Lemma world_before_snoc n : ∀ a w,
  world_before env c req a (S n) w =
  after_attempt c (a + Z.of_nat n) (world_after env c req a n w).
Proof.
  induction n as [|n IH]; intros a w.
  - unfold world_after. cbn. by rewrite Z.add_0_r.
  - change (world_before env c req a (S (S n)) w)
      with (world_before env c req (a + 1) (S n) (after_attempt c a (send env c req w).2)).
    rewrite IH. unfold world_after. cbn [world_before].
    f_equal. lia.
Qed.

(** When the attempts [a .. a+n] all end in a retriable way and are not
    the last ones, the loop is then about to make attempt [a+n+1]. *)
Lemma retry_loop_prefix n : ∀ fuel a resp err w,
  0 <= a → a + Z.of_nat n <= maxRetries c → maxRetries c < Int64.max_int →
  (∀ k, (k ≤ n)%nat → ∃ res, outcome env c req a k w = inl res ∧ retriable res = true) →
  ∃ res, outcome env c req a n w = inl res
    ∧ retry_loop env (S n + fuel) c req a resp err w =
      retry_loop env fuel c req (a + Z.of_nat n + 1) res.1 res.2
        (world_before env c req a (S n) w).
Proof.
  induction n as [|n IH]; intros fuel a resp err w Ha Hn Hm Hall.
  - destruct (Hall 0%nat) as (res & Ho & Hr); [lia|].
    exists res. split; [done|].
    unfold outcome in Ho. cbn [world_before] in *.
    destruct (send env c req w) as [o w1] eqn:Hs. cbn in Ho. subst o.
    change (1 + fuel)%nat with (S fuel).
    erewrite retry_loop_retry; [| lia | lia | exact Hs | done ].
    by rewrite Z.add_0_r.
  - destruct (Hall 0%nat) as (res & Ho & Hr); [lia|].
    unfold outcome in Ho. cbn [world_before] in Ho.
    destruct (send env c req w) as [o w1] eqn:Hs. cbn in Ho. subst o.
    change (S (S n) + fuel)%nat with (S (S n + fuel)).
    erewrite retry_loop_retry; [| lia | lia | exact Hs | done ].
    destruct (IH fuel (a + 1) res.1 res.2 (after_attempt c a w1))
      as (res' & Ho' & Hl'); [lia | lia | lia | |].
    + intros k Hk. destruct (Hall (S k)) as (rk & Hok & Hrk); [lia|].
      exists rk. split; [|done].
      unfold outcome in *. cbn [world_before] in Hok. by rewrite Hs in Hok.
    + exists res'. split.
      * unfold outcome in *. cbn [world_before]. by rewrite Hs.
      * rewrite Hl'.
        change (world_before env c req a (S (S n)) w)
          with (world_before env c req (a + 1) (S n) (after_attempt c a (send env c req w).2)).
        rewrite Hs. cbn. f_equal. lia.
Qed.

(** With the context done, every remaining attempt is still made and
    refused, and every remaining wait is still slept. *)
Lemma retry_loop_ctx_done m e : ∀ fuel a resp err w,
  0 <= a → a + Z.of_nat m = maxRetries c → maxRetries c < Int64.max_int →
  (S m < fuel)%nat →
  Ctx.Err (Http.reqCtx req) (now w) = Some e →
  retry_loop env fuel c req a resp err w =
  (inl (None, Some e),
   mkWorld (now w + Z.of_nat m * Z.max 0 (retryBackoff c)) (heap w) (wire w)
     (calls w + S m) (log w)).
Proof.
  induction m as [|m IH]; intros fuel a resp err w Ha Hm Hmax Hf Hctx.
  - destruct fuel as [|[|fuel]]; [lia | lia |].
    erewrite retry_loop_retry;
      [| lia | lia | unfold send; by apply Http_Do_done | done ].
    rewrite retry_loop_exit by lia. cbn.
    unfold after_attempt. destruct (Z.ltb_spec a (maxRetries c)); [lia|].
    unfold add_call. cbn. do 2 f_equal; [lia | lia].
  - destruct fuel as [|fuel]; [lia|].
    erewrite retry_loop_retry;
      [| lia | lia | unfold send; by apply Http_Do_done | done ].
    unfold after_attempt. destruct (Z.ltb_spec a (maxRetries c)); [|lia].
    rewrite IH; [| lia | lia | lia | lia |].
    + cbn. do 2 f_equal; lia.
    + cbn. eapply Ctx_Err_stable; [exact Hctx | lia].
Qed.
End Cancellation.
Section CancellationClaims.
Import Httpclient Run.

(** C3, as amended.  When the request's context is cancelled, or its
    deadline passes, during the wait that follows attempt number [a], the
    wait is not cut short ([time.Sleep]): the loop sleeps it in full, then
    still calls the HTTP client for every remaining attempt up to
    [maxRetries] (each is refused at once with the context's error, and
    nothing more goes on the wire) and still sleeps every remaining wait.
    [Do] then returns the context's error, [maxRetries - a] waits after
    the end of attempt [a]. *)
Theorem Do_ctx_done_in_backoff env c ctx opts w req w0 fuel (a : nat) e :
  enters_loop env c ctx opts w req w0 →
  Z.of_nat a < maxRetries c < Int64.max_int →
  (Z.to_nat (maxRetries c) + 1 < fuel)%nat →
  (∀ k, (k ≤ a)%nat →
     ∃ res, outcome env c req 0 k w0 = inl res ∧ retriable res = true) →
  Ctx.Err (Http.reqCtx req) (now (world_after env c req 0 a w0)) = None →
  Ctx.Err (Http.reqCtx req)
    (now (world_after env c req 0 a w0) + Z.max 0 (retryBackoff c)) = Some e →
  ∃ w', Do env fuel c ctx opts w = (Return (None, Some e), w')
    ∧ calls w' = (calls w + Z.to_nat (maxRetries c) + 1)%nat
    ∧ wire w' = wire (world_after env c req 0 a w0)
    ∧ now w' = now (world_after env c req 0 a w0)
               + (maxRetries c - Z.of_nat a) * Z.max 0 (retryBackoff c).
Proof.
  intros Hin HN Hfuel Hall Hlive Hdone.
  destruct (retry_loop_prefix env c req a (fuel - S a) 0 None None w0)
    as (res & Ho & Hpre); [lia | lia | lia | exact Hall |].
  replace (S a + (fuel - S a))%nat with fuel in Hpre by lia.
  rewrite world_before_snoc in Hpre.
  set (w1 := world_after env c req 0 a w0) in *.
  assert (after_attempt c (0 + Z.of_nat a) w1
          = set_now (now w1 + Z.max 0 (retryBackoff c)) w1) as Hw2.
  { unfold after_attempt. destruct (Z.ltb_spec (0 + Z.of_nat a) (maxRetries c)); [done|lia]. }
  rewrite Hw2 in Hpre.
  rewrite (retry_loop_ctx_done env c req
             (Z.to_nat (maxRetries c) - S a) e (fuel - S a)
             (0 + Z.of_nat a + 1) res.1 res.2
             (set_now (now w1 + Z.max 0 (retryBackoff c)) w1)) in Hpre;
    [| lia | lia | lia | lia | exact Hdone ].
  rewrite (Do_after_loop env c fuel ctx opts w req w0 _ _ _ Hin Hpre).
  rewrite finish_error. eexists. split; [reflexivity|]. cbn.
  assert (calls w1 = (calls w + S a)%nat) as Hc.
  { unfold w1, world_after.
    destruct (send_total env c req (world_before env c req 0 a w0))
      as (? & ? & w1' & Hs & Hc1 & _). rewrite Hs. cbn. rewrite Hc1.
    destruct (world_before_calls env c req 0 a w0) as [-> _].
    destruct (enters_loop_world env c ctx opts w req w0 Hin) as (-> & _). lia. }
  split; [lia|]. split; [done|]. nia.
Qed.

Lemma Do_ctx_done_in_backoff_witness :
  let env := Scenario.env (Scenario.always 503) in
  let c := Scenario.client 3 Second in
  let ctx := Ctx.mk None (Some (Second / 2)) in
  let req := Http.WithContext ctx (Scenario.get_posts_request 0) in
  ∃ w', Do env 5 c ctx (Scenario.get_posts 0) Scenario.start
        = (Return (None, Some ErrCanceled), w')
    ∧ calls w' = 4%nat
    ∧ wire w' = wire (world_after env c req 0 0 (Scenario.get_posts_logged 0))
    ∧ now w' = 3 * Second.
Proof.
  intros env c ctx req.
  apply (Do_ctx_done_in_backoff env c ctx (Scenario.get_posts 0)
           Scenario.start req (Scenario.get_posts_logged 0) 5 0 ErrCanceled).
  - eexists _, _. split; vm_compute; reflexivity.
  - vm_compute. split; reflexivity.
  - vm_compute. lia.
  - intros k Hk. destruct k as [|k]; [|lia].
    eexists. split; vm_compute; reflexivity.
  - vm_compute. reflexivity.
  - vm_compute. reflexivity.
Defined.

(** C3 as stated fails: with [MaxRetries = 3], a backoff of one second and
    a context cancelled after half a second, in the wait after the first
    attempt, [Do] returns after three seconds, more than one backoff after
    the cancellation, and has by then called the HTTP client three more
    times. *)
Lemma Do_cancel_in_backoff_goes_on :
  let run := Do (Scenario.env (Scenario.always 503)) 5 (Scenario.client 3 Second)
               (Ctx.mk None (Some (Second / 2))) (Scenario.get_posts 0)
               Scenario.start in
  run.1 = Return (None, Some ErrCanceled)
  ∧ now run.2 = 3 * Second ∧ ¬ (now run.2 - Second / 2 <= Second)
  ∧ calls run.2 = 4%nat ∧ length (wire run.2) = 1%nat.
Proof.
  cbv zeta. repeat split; try (vm_compute; reflexivity).
  vm_compute. intros H. apply H. reflexivity.
Qed.
End CancellationClaims.
(** ** What the logger is told *)
Section Observer.
Import Httpclient Run.

(** C4, as amended.  A [Do] call that gets as far as the loop logs the
    outgoing request exactly once, before the first attempt, however many
    attempts follow; it logs an incoming response exactly once when it
    returns a response to the caller, and never otherwise.  An error that
    the loop ends with is returned to the caller. *)
Theorem Do_logs_once env c ctx opts w req w0 fuel res w' :
  enters_loop env c ctx opts w req w0 →
  Do env fuel c ctx opts w = (res, w') →
  count is_outgoing w0 = S (count is_outgoing w)
  ∧ count is_outgoing w' = S (count is_outgoing w)
  ∧ count is_incoming w' =
      (count is_incoming w + if returns_response res then 1 else 0)%nat
  ∧ (∀ resp e w1,
       retry_loop env fuel c req 0 None None w0 = (inl (resp, Some e), w1) →
       res = Return (None, Some e)).
Proof.
  intros Hin HDo.
  destruct (enters_loop_world env c ctx opts w req w0 Hin)
    as (_ & _ & _ & Hout & Hinc).
  destruct (retry_loop env fuel c req 0 None None w0) as [out w1] eqn:Hloop.
  pose proof (retry_loop_inv env c req fuel _ _ _ _ _ _ Hloop) as [Hlog Hout1].
  assert (∀ p, count p w1 = count p w0) as Hcount.
  { intros p. unfold count. by rewrite Hlog. }
  split; [done|].
  destruct out as [[resp err]|ex].
  - rewrite (Do_after_loop env c fuel ctx opts w req w0 _ _ _ Hin Hloop) in HDo.
    destruct err as [e|].
    + rewrite finish_error in HDo. inversion HDo; subst.
      rewrite !count_add_event, !Hcount. cbn.
      repeat split; [lia | lia |]. intros ? ? ? [= -> -> ->]. done.
    + destruct resp as [r|].
      * destruct (finish_response c req r w1)
          as (res1 & w1' & Hfin & _ & _ & _ & Ho & Hres).
        rewrite Hfin in HDo. inversion HDo; subst.
        rewrite Ho, !Hcount. split; [lia|]. split; [|intros ? ? ? [=]].
        destruct (body_error w1 r).
        -- destruct Hres as [-> ->]. cbn. rewrite Hcount. lia.
        -- destruct Hres as [[b ->] ->]. cbn. rewrite Hcount. lia.
      * cbn in HDo. inversion HDo; subst. rewrite !Hcount. cbn.
        repeat split; [lia | lia |]. intros ? ? ? [=].
  - rewrite (Do_loop_exit env c fuel ctx opts w req w0 _ _ Hin Hloop) in HDo.
    inversion HDo; subst. rewrite !Hcount. cbn.
    repeat split; [lia | lia |]. intros ? ? ? [=].
Qed.

Lemma Do_logs_once_witness :
  let env := Scenario.env (Scenario.script [Scenario.reply 0 503] (Scenario.reply 0 200)) in
  let run := Do env 5 (Scenario.client 1 Second) Ctx.Background
               (Scenario.get_posts 0) Scenario.start in
  count is_outgoing run.2 = 1%nat ∧ count is_incoming run.2 = 1%nat.
Proof.
  intros env run.
  destruct (Do_logs_once env (Scenario.client 1 Second) Ctx.Background
              (Scenario.get_posts 0) Scenario.start (Scenario.get_posts_request 0)
              (Scenario.get_posts_logged 0) 5 run.1 run.2)
    as (_ & Hout & Hinc & _).
  - eexists _, _. split; vm_compute; reflexivity.
  - vm_compute. reflexivity.
  - split; [exact Hout | exact Hinc].
Defined.

(** C4 as stated fails: with one retry and a network that answers 503 and
    then 200, [Do] makes two attempts, both of which produce a response,
    yet the log holds one outgoing-request event and one
    incoming-response event. *)
Lemma Do_two_attempts_one_event :
  let env := Scenario.env (Scenario.script [Scenario.reply 0 503] (Scenario.reply 0 200)) in
  let run := Do env 5 (Scenario.client 1 Second) Ctx.Background
               (Scenario.get_posts 0) Scenario.start in
  calls run.2 = 2%nat ∧ length (wire run.2) = 2%nat
  ∧ count is_outgoing run.2 = 1%nat
  ∧ count is_incoming run.2 = 1%nat
  ∧ count is_outgoing run.2 ≠ calls run.2.
Proof.
  cbv zeta. repeat split; try (vm_compute; reflexivity).
  vm_compute. discriminate.
Qed.
End Observer.
(** ** Request bodies across attempts, and whose timeout governs *)
Section BodyAndTimeout.
Import Httpclient Run.

(** C2 does not hold of the code.  [logRequest] reads the body once and
    puts a reader over the copy into the request, but the loop hands that
    same request, and so that same reader, to every attempt: the first
    attempt drains it.  With one retry, a body of "abc" and a network
    that answers 503, the first attempt sends "abc" and the second sends
    nothing.  (Lemma [Do_retries_send_no_body] below: this is so for every
    body and every run.) *)
Lemma Do_retry_sends_drained_body :
  let run := Do (Scenario.env (Scenario.always 503)) 5 (Scenario.client 1 Second)
               Ctx.Background Scenario.post_posts (Scenario.start_with "abc") in
  calls run.2 = 2%nat
  ∧ map sent_body (wire run.2) = [Scenario.bytes "abc"; []].
Proof. cbv zeta. split; vm_compute; reflexivity. Qed.

(** C5 does not hold of the code.  The per-request timeout only adds a
    deadline to the request's context; the time limit of the HTTP client
    (30 seconds unless configured) still applies to every attempt.  With a
    per-request timeout of 60 seconds and a reply that takes 40, the
    attempt is cut at 30 seconds by the client's limit. *)
Lemma Do_client_timeout_still_applies :
  let env := Scenario.env (fun _ => Scenario.reply (40 * Second) 200) in
  let run := Do env 5 (Scenario.client 0 0) Ctx.Background
               (Scenario.get_posts (60 * Second)) Scenario.start in
  run.1 = Return (None, Some ErrClientTimeout)
  ∧ now run.2 = 30 * Second.
Proof. cbv zeta. split; vm_compute; reflexivity. Qed.

(** The part of C5 that does hold: the context of the request that [Do]
    builds carries the earlier of the caller's deadline and the
    per-request timeout, and the caller's cancellation. *)
Lemma buildRequest_deadline env c ctx opts w req w1 :
  buildRequest env c ctx opts w = (inl req, w1) →
  0 < Timeout opts →
  Ctx.deadline (Http.reqCtx req) =
    Some (match Ctx.deadline ctx with
          | Some d => Z.min d (now w + Timeout opts)
          | None => now w + Timeout opts
          end)
  ∧ Ctx.cancelAt (Http.reqCtx req) = Ctx.cancelAt ctx.
Proof.
  intros Hb Ht. unfold buildRequest in Hb. go_unfold.
  destruct (Z.ltb_spec 0 (Timeout opts)); [|lia].
  destruct (baseURL c); cbn in Hb.
  - destruct (Http.NewRequestWithContext _ _ _ _); cbn in Hb; [congruence|].
    inversion Hb; subst. cbn. by destruct (Ctx.deadline ctx).
  - destruct (parse env _); cbn in Hb; [congruence|].
    destruct (Http.NewRequestWithContext _ _ _ _); cbn in Hb; [congruence|].
    inversion Hb; subst. cbn. by destruct (Ctx.deadline ctx).
Qed.
End BodyAndTimeout.

(** ** Headers *)
Section Headers.
Import Httpclient Run.


End Headers.
Section BuiltRequest.
Import Httpclient Run.
Context (env : Env) (c : CommonHTTPClient) (ctx : Ctx.t) (opts : RequestOptions).

(** What [buildRequest] returns when it returns a request. *)
Lemma buildRequest_spec w req w1 :
  buildRequest env c ctx opts w = (inl req, w1) →
  w1 = w
  ∧ Http.validMethod (if String.eqb (Method opts) "" then "GET" else Method opts) = true
  ∧ Http.Hdr req =
      setAll Header.Set_ env (Headers opts)
        (setAll Header.Set_ env (defaultHeaders c) ∅)
  ∧ Http.Body req = Body opts
  ∧ ∃ reqURL, resolved env c opts reqURL
      ∧ Http.URL req =
          if 0 <? Z.of_nat (size (QueryParams opts))
          then Url.set_RawQuery
                 (setAll Url.Set_ env (QueryParams opts) (Url.RawQuery reqURL)) reqURL
          else reqURL.
Proof.
  intros Hb. unfold buildRequest, resolved, Http.NewRequestWithContext in *. go_unfold.
  destruct (baseURL c) as [base|]; cbn in Hb.
  - destruct (Http.validMethod _) eqn:Hv; cbn in Hb; [|congruence].
    inversion Hb; subst. split; [done|]. split; [done|].
    destruct (0 <? Timeout opts); cbn; (split; [done|]); (split; [done|]); eauto.
  - destruct (parse env _) as [err|u]; cbn in Hb; [congruence|].
    destruct (Http.validMethod _) eqn:Hv; cbn in Hb; [|congruence].
    inversion Hb; subst. split; [done|]. split; [done|].
    destruct (0 <? Timeout opts); cbn; (split; [done|]); (split; [done|]); eauto.
Qed.

End BuiltRequest.

(** ** What goes on the wire *)
Section Wire.
Import Httpclient Run.
Context (env : Env) (c : CommonHTTPClient) (req : Http.Request).



End Wire.

(** ** The body reader across attempts *)
Section BodyReader.
Import Httpclient Run.
Context (env : Env) (c : CommonHTTPClient) (req : Http.Request) (b : nat).
Hypothesis Hbody : Http.Body req = Some b.

(** An attempt either leaves the wire and the heap alone, or sends what the
    body reader had left and leaves it drained. *)
Lemma send_body w out w' :
  (b < length (heap w))%nat →
  send env c req w = (out, w') →
  (wire w' = wire w ∧ heap w' = heap w)
  ∨ (∃ s rd, heap w !! b = Some rd ∧ wire w' = wire w ++ [s]
       ∧ sent_body s = rest rd ∧ drained b w').
Proof.
  intros Hb. unfold send, Http.Do. go_unfold. cbn. rewrite Hbody.
  destruct (Ctx.Err _ _) as [e|]; cbn; [intros [= <- <-]; by left|].
  destruct (lookup_lt_is_Some_2 _ _ Hb) as [rd Hrd]. rewrite Hrd. cbn.
  assert (∀ h', drained b
            (mkWorld (now w) (<[b:=mkReader [] (broken rd)]> (heap w) ++ h')
               (wire w) (S (calls w)) (log w))) as Hd.
  { intros h'. exists (mkReader [] (broken rd)). cbn. split; [|reflexivity].
    rewrite lookup_app_l by (by rewrite length_insert).
    by apply list_lookup_insert_eq. }
  assert (∀ t h', drained b
            (mkWorld t (<[b:=mkReader [] (broken rd)]> (heap w) ++ h')
               (wire w ++ [mkSent (Http.Method req) (Http.URL req) (Http.Hdr req)
                             (rest rd) (now w)])
               (S (calls w)) (log w))) as Hd'.
  { intros t h'. destruct (Hd h') as (rd' & H1 & H2). by exists rd'. }
  assert (∀ t, drained b
            (mkWorld t (<[b:=mkReader [] (broken rd)]> (heap w))
               (wire w ++ [mkSent (Http.Method req) (Http.URL req) (Http.Hdr req)
                             (rest rd) (now w)])
               (S (calls w)) (log w))) as Hd1.
  { intros t. pose proof (Hd' t []) as H. by rewrite app_nil_r in H. }
  destruct (broken rd) eqn:Hbr; cbn.
  { intros [= <- <-]. right. eexists _, rd. repeat split; try done. apply Hd1. }
  destruct (Http.interrupted _ _ _) as [[t' e]|]; cbn.
  { intros [= <- <-]. right. eexists _, rd. repeat split; try done. apply Hd1. }
  destruct (answer _) as [e|[[st h] rd']]; cbn.
  { intros [= <- <-]. right. eexists _, rd. repeat split; try done. apply Hd1. }
  intros [= <- <-]. right. eexists _, rd. repeat split; try done. apply Hd'.
Qed.

Lemma after_attempt_heap a w : heap (after_attempt c a w) = heap w.
Proof. unfold after_attempt. by destruct (a <? maxRetries c). Qed.

(** Once the reader is drained, every attempt sends an empty body. *)
Lemma retry_loop_drained fuel : ∀ a resp err w out w',
  drained b w →
  retry_loop env fuel c req a resp err w = (out, w') →
  ∃ l, wire w' = wire w ++ l ∧ Forall no_body l.
Proof.
  induction fuel as [|fuel IH]; intros a resp err w out w' Hd H.
  - cbn in H. inversion H; subst. exists []. by rewrite app_nil_r.
  - destruct (Z.leb_spec a (maxRetries c)) as [Ha|Ha].
    + destruct (send_total env c req w) as (r1 & e1 & w1 & Hs & _).
      assert (b < length (heap w))%nat as Hb.
      { destruct Hd as (rd & Hrd & _). by eapply lookup_lt_Some. }
      assert (∃ l1, wire w1 = wire w ++ l1 ∧ Forall no_body l1 ∧ drained b w1)
        as (l1 & Hw1 & Hl1 & Hd1).
      { destruct (send_body w _ w1 Hb Hs) as [[Hw Hh]|(s & rd & Hrd & Hw & Hsb & Hd')].
        - exists []. rewrite app_nil_r. repeat split; [done | constructor |].
          destruct Hd as (rd & Hrd & Hr). exists rd. by rewrite Hh.
        - exists [s]. repeat split; [done | | done].
          constructor; [|constructor]. unfold no_body. rewrite Hsb.
          destruct Hd as (rd0 & Hrd0 & Hr0). congruence. }
      rewrite (retry_loop_unfold env c req fuel a resp err w _ w1 Ha Hs) in H.
      assert (∀ out w', retry_loop env fuel c req (Int64.succ a) r1 e1
                 (after_attempt c a w1) = (out, w') →
               ∃ l, wire w' = wire w ++ l ∧ Forall no_body l) as Hrec.
      { intros out0 w0 H0. apply IH in H0 as (l2 & Hw2 & Hl2).
        - destruct (after_attempt_same c a w1) as (_ & _ & Haw).
          exists (l1 ++ l2). split; [| by apply Forall_app].
          rewrite Hw2, Haw, Hw1. by rewrite app_assoc.
        - destruct Hd1 as (rd & Hrd & Hr). exists rd.
          by rewrite after_attempt_heap. }
      destruct r1 as [r|], e1 as [e|]; cbn in H.
      * eapply Hrec; exact H.
      * destruct (Http.StatusCode r <? 500); [| eapply Hrec; exact H].
        inversion H; subst. eauto.
      * eapply Hrec; exact H.
      * inversion H; subst. eauto.
    + rewrite retry_loop_exit in H by lia. inversion H; subst.
      exists []. by rewrite app_nil_r.
Qed.

(** Whatever the reader holds at first, only the first request on the wire
    can carry a body. *)
Lemma retry_loop_first_body fuel : ∀ a resp err w out w',
  (b < length (heap w))%nat →
  retry_loop env fuel c req a resp err w = (out, w') →
  ∃ l, wire w' = wire w ++ l ∧ Forall no_body (tail l).
Proof.
  induction fuel as [|fuel IH]; intros a resp err w out w' Hb H.
  - cbn in H. inversion H; subst. exists []. rewrite app_nil_r. by split.
  - destruct (Z.leb_spec a (maxRetries c)) as [Ha|Ha].
    + destruct (send_total env c req w) as (r1 & e1 & w1 & Hs & _).
      rewrite (retry_loop_unfold env c req fuel a resp err w _ w1 Ha Hs) in H.
      assert (∀ out w', retry_loop env fuel c req (Int64.succ a) r1 e1
                 (after_attempt c a w1) = (out, w') →
               ∃ l, wire w' = wire w ++ l ∧ Forall no_body (tail l)) as Hrec.
      { intros out0 w0 H0.
        destruct (after_attempt_same c a w1) as (_ & _ & Haw).
        destruct (send_body w _ w1 Hb Hs) as [[Hw Hh]|(s & rd & Hrd & Hw & Hsb & Hd')].
        - apply IH in H0 as (l2 & Hw2 & Hl2).
          + exists l2. split; [|done]. by rewrite Hw2, Haw, Hw.
          + rewrite after_attempt_heap, Hh. done.
        - apply retry_loop_drained in H0 as (l2 & Hw2 & Hl2).
          + exists (s :: l2). split; [|done].
            rewrite Hw2, Haw, Hw. by rewrite <- app_assoc.
          + destruct Hd' as (rd' & Hrd' & Hr'). exists rd'.
            by rewrite after_attempt_heap. }
      assert (∃ l, wire w1 = wire w ++ l ∧ Forall no_body (tail l)) as Hone.
      { destruct (send_body w _ w1 Hb Hs) as [[Hw Hh]|(s & rd & Hrd & Hw & Hsb & Hd')].
        - exists []. rewrite app_nil_r. by split.
        - exists [s]. split; [done|]. constructor. }
      destruct r1 as [r|], e1 as [e|]; cbn in H.
      * eapply Hrec; exact H.
      * destruct (Http.StatusCode r <? 500); [| eapply Hrec; exact H].
        inversion H; subst. exact Hone.
      * eapply Hrec; exact H.
      * inversion H; subst. exact Hone.
    + rewrite retry_loop_exit in H by lia. inversion H; subst.
      exists []. rewrite app_nil_r. by split.
Qed.
End BodyReader.

Section BodyReplay.
Import Httpclient Run.

(** The request that enters the loop has a body reader when the caller gave
    one, and that reader exists. *)
Lemma enters_loop_body env c ctx opts w req w0 b0 :
  enters_loop env c ctx opts w req w0 →
  Body opts = Some b0 → (b0 < length (heap w))%nat →
  ∃ b, Http.Body req = Some b ∧ (b < length (heap w0))%nat.
Proof.
  intros (req0 & w1 & Hb & Hl) Hbody Hlt.
  apply buildRequest_spec in Hb as (-> & _ & _ & Hb0 & _).
  unfold logRequest in Hl. go_unfold. rewrite Hbody in Hl, Hb0. cbn in Hl.
  destruct (disableLogBody c); cbn in Hl.
  - inversion Hl; subst. exists b0. by split.
  - destruct (lookup_lt_is_Some_2 _ _ Hlt) as [rd Hrd]. rewrite Hrd in Hl.
    cbn in Hl. inversion Hl; subst. cbn.
    eexists. split; [reflexivity|]. rewrite length_app. cbn. lia.
Qed.

(** Whatever body the caller gives, every request that a [Do] call puts on
    the wire after the first one carries no body at all. *)
Lemma Do_retries_send_no_body env c ctx opts w req w0 fuel res w' b0 :
  enters_loop env c ctx opts w req w0 →
  Body opts = Some b0 → (b0 < length (heap w))%nat →
  Do env fuel c ctx opts w = (res, w') →
  ∃ l, wire w' = wire w ++ l ∧ Forall no_body (tail l).
Proof.
  intros Hin Hbody Hlt HDo.
  destruct (enters_loop_body _ _ _ _ _ _ _ _ Hin Hbody Hlt) as (b & Hb & Hblt).
  destruct (enters_loop_world env c ctx opts w req w0 Hin) as (_ & Hw0 & _).
  destruct (retry_loop env fuel c req 0 None None w0) as [out w1] eqn:Hloop.
  destruct (retry_loop_first_body env c req b Hb _ _ _ _ _ _ _ Hblt Hloop)
    as (l & Hw1 & Hl).
  exists l. split; [|done]. rewrite <- Hw0, <- Hw1.
  destruct out as [[resp err]|ex].
  - rewrite (Do_after_loop env c fuel ctx opts w req w0 _ _ _ Hin Hloop) in HDo.
    destruct err as [e|].
    + rewrite finish_error in HDo. by inversion HDo; subst.
    + destruct resp as [r|].
      * destruct (finish_response c req r w1) as (res1 & w1' & Hfin & _ & Hw & _).
        rewrite Hfin in HDo. by inversion HDo; subst.
      * cbn in HDo. by inversion HDo; subst.
  - rewrite (Do_loop_exit env c fuel ctx opts w req w0 _ _ Hin Hloop) in HDo.
    by inversion HDo; subst.
Qed.
End BodyReplay.

Section HeaderMerge.
Import Httpclient Run.

Local Abbreviation canon := Header.CanonicalMIMEHeaderKey.

End HeaderMerge.
Section HeaderMergeExample.
Import Httpclient Run.

End HeaderMergeExample.

(** ** URLs *)
Section ResolvePath.









End ResolvePath.
Section BuiltURL.
Import Httpclient Run.




End BuiltURL.
Section MultiValue.

Lemma Add_has_new k v q : Url.has (Url.Add k v q) k v.
Proof.
  unfold Url.has, Url.Add. rewrite lookup_insert_eq. eexists. split; [done|].
  apply elem_of_app. right. by apply list_elem_of_singleton.
Qed.

Lemma Add_has_old k v q k' v' : Url.has q k v → Url.has (Url.Add k' v' q) k v.
Proof.
  unfold Url.has, Url.Add. intros (vs & Hk & Hv).
  destruct (decide (k' = k)) as [->|Hne].
  - rewrite lookup_insert_eq, Hk. eexists. split; [done|].
    apply elem_of_app. by left.
  - rewrite lookup_insert_ne by done. eauto.
Qed.

Lemma foldl_Add_has (l : list (string * string)) q k v :
  Url.has q k v ∨ (k, v) ∈ l →
  Url.has (foldl (fun q kv => Url.Add kv.1 kv.2 q) q l) k v.
Proof.
  induction l as [|[k' v'] l IH] using rev_ind.
  - intros [H|H]; [done|]. by apply elem_of_nil in H.
  - rewrite foldl_app. cbn. intros [H|H].
    + apply Add_has_old. apply IH. by left.
    + apply elem_of_app in H as [H|H].
      * apply Add_has_old. apply IH. by right.
      * apply list_elem_of_singleton in H. inversion H; subst. apply Add_has_new.
Qed.

(** [Client.buildURL] of package httpclient2 parses the base URL and the
    path glued together, and adds every query parameter of the request
    to the values the parsed URL already has: each input pair is among
    the query parameters of the built URL, and so is every pair that was
    there. *)
Lemma buildURL_query env c req :
  (∀ l, range env l ≡ₚ l) →
  match Httpclient2.buildURL env c req with
  | inl err =>
      parse env (Httpclient2.baseURL c +:+ Httpclient2.Path req) = inl err
  | inr u =>
      ∃ parsed,
        parse env (Httpclient2.baseURL c +:+ Httpclient2.Path req) = inr parsed
        ∧ Url.Scheme u = Url.Scheme parsed ∧ Url.Host u = Url.Host parsed
        ∧ Url.Path u = Url.Path parsed
        ∧ (∀ k v, Httpclient2.Query req !! k = Some v → Url.has (Url.RawQuery u) k v)
        ∧ (∀ k v, Url.has (Url.RawQuery parsed) k v → Url.has (Url.RawQuery u) k v)
  end.
Proof.
  intros Hperm. unfold Httpclient2.buildURL.
  destruct (parse env _) as [err|parsed]; [done|].
  exists parsed. split; [done|]. cbn. repeat split.
  - intros k v Hk.
    assert (Url.has (Httpclient.setAll Url.Add env (Httpclient2.Query req)
                   (Url.RawQuery parsed)) k v) as H.
    { apply foldl_Add_has. right. rewrite Hperm. by apply elem_of_map_to_list. }
    destruct (_ && _); [by apply Add_has_old | done].
  - intros k v Hk.
    assert (Url.has (Httpclient.setAll Url.Add env (Httpclient2.Query req)
                   (Url.RawQuery parsed)) k v) as H.
    { apply foldl_Add_has. by left. }
    destruct (_ && _); [by apply Add_has_old | done].
Qed.
End MultiValue.

(** ** Methods *)
Section Methods.
Import Go.

(** Package hwaasresty: a method outside the list fails before resty is
    asked to execute anything, with "unsupported method" or, when reading
    the body fails, with the read error. *)
Lemma resty_Do_method_outside_list env execute c ctx opts w :
  Hwaasresty.Method opts ∉ Hwaasresty.supported →
  ∃ e w', Hwaasresty.Do env execute c ctx opts w = (Return (None, Some e), w')
    ∧ wire w' = wire w ∧ calls w' = calls w ∧ now w' = now w ∧ log w' = log w
    ∧ e = match Hwaasresty.Body opts with
          | Some b => default ErrUnsupportedMethod (heap w !! b ≫= broken)
          | None => ErrUnsupportedMethod
          end.
Proof.
  intros Hm. unfold Hwaasresty.Do, run. go_unfold.
  rewrite bool_decide_eq_false_2 by done.
  destruct (Hwaasresty.Body opts) as [b|]; cbn.
  - destruct (heap w !! b) as [rd|]; cbn.
    + destruct (broken rd) as [e|]; cbn; eexists _, _; repeat split.
    + eexists _, _; repeat split.
  - eexists _, _; repeat split.
Qed.

(** Package httpclient has no list of methods: [Do] turns down only what
    [http.NewRequestWithContext] turns down, a method that is not a token,
    and does so before anything is sent or logged. *)
Lemma Do_invalid_method env fuel c ctx opts w :
  Http.validMethod
    (if String.eqb (Httpclient.Method opts) "" then "GET"
     else Httpclient.Method opts) = false →
  ∃ e, Httpclient.Do env fuel c ctx opts w = (Return (None, Some e), w)
    ∧ (e = ErrInvalidMethod (Httpclient.Method opts)
       ∨ (Httpclient.baseURL c = None
          ∧ parse env (Httpclient.Path opts) = inl e)).
Proof.
  intros Hv.
  assert (Httpclient.Method opts ≠ "") as Hne.
  { intros Heq. rewrite Heq in Hv. vm_compute in Hv. discriminate Hv. }
  destruct (String.eqb_spec (Httpclient.Method opts) "") as [|_]; [done|].
  unfold Httpclient.Do, run, Httpclient.buildRequest, Http.NewRequestWithContext.
  go_unfold.
  destruct (String.eqb_spec (Httpclient.Method opts) "") as [|_]; [done|].
  destruct (Httpclient.baseURL c) as [base|]; cbn.
  - rewrite Hv. cbn. eauto.
  - destruct (parse env _) as [err|u]; cbn; [eauto|].
    rewrite Hv. cbn. eauto.
Qed.

(** C9, as amended.  In package hwaasresty a [Do] call whose method is not
    one of GET, POST, PUT, DELETE, PATCH and HEAD fails before resty is
    asked to execute anything: nothing is sent, no time passes, nothing is
    logged.  The error is "unsupported method", unless the request has a
    body whose reading fails: the body is read before the method is looked
    at, and the call then fails with the read error.  In package httpclient,
    which has no list of methods, a [Do] call whose method is not a token
    fails before anything is sent or logged, with the invalid-method error
    of [http.NewRequestWithContext], or with the error of [url.Parse] when
    no base URL is configured and the path does not parse. *)
Theorem Do_unsupported_method :
  (∀ env execute c ctx opts w,
     Hwaasresty.Method opts ∉ Hwaasresty.supported →
     ∃ e w', Hwaasresty.Do env execute c ctx opts w = (Return (None, Some e), w')
       ∧ wire w' = wire w ∧ calls w' = calls w ∧ now w' = now w ∧ log w' = log w
       ∧ e = match Hwaasresty.Body opts with
             | Some b => default ErrUnsupportedMethod (heap w !! b ≫= broken)
             | None => ErrUnsupportedMethod
             end)
  ∧ (∀ env fuel c ctx opts w,
       Http.validMethod
         (if String.eqb (Httpclient.Method opts) "" then "GET"
          else Httpclient.Method opts) = false →
       ∃ e, Httpclient.Do env fuel c ctx opts w = (Return (None, Some e), w)
         ∧ (e = ErrInvalidMethod (Httpclient.Method opts)
            ∨ (Httpclient.baseURL c = None
               ∧ parse env (Httpclient.Path opts) = inl e))).
Proof.
  split.
  - apply resty_Do_method_outside_list.
  - apply Do_invalid_method.
Qed.

Lemma Do_unsupported_method_witness :
  (∃ w', Hwaasresty.Do (Scenario.env (Scenario.always 200)) Scenario.unreachable
           Scenario.resty_client Ctx.Background Scenario.foo_posts
           (Scenario.start_with "abc")
         = (Return (None, Some ErrUnsupportedMethod), w')
     ∧ wire w' = [] ∧ calls w' = 0%nat)
  ∧ Httpclient.Do (Scenario.env (Scenario.always 200)) 5 (Scenario.client 3 Second)
      Ctx.Background (Httpclient.mkRequestOptions "/posts" "GET POSTS" ∅ ∅ None 0)
      Scenario.start
    = (Return (None, Some (ErrInvalidMethod "GET POSTS")), Scenario.start).
Proof.
  destruct Do_unsupported_method as [Hresty Hhttp]. split.
  - destruct (Hresty (Scenario.env (Scenario.always 200))
                Scenario.unreachable Scenario.resty_client Ctx.Background
                Scenario.foo_posts (Scenario.start_with "abc"))
      as (e & w' & HDo & Hw & Hc & _ & _ & He).
    + vm_compute. intros H.
      repeat (apply elem_of_cons in H as [H|H]; [discriminate H|]).
      by apply elem_of_nil in H.
    + exists w'. rewrite HDo, He. repeat split; [exact Hw | exact Hc].
  - destruct (Hhttp (Scenario.env (Scenario.always 200)) 5%nat
                (Scenario.client 3 Second) Ctx.Background
                (Httpclient.mkRequestOptions "/posts" "GET POSTS" ∅ ∅ None 0)
                Scenario.start) as (e & HDo & [->|[Hb _]]).
    + vm_compute. reflexivity.
    + exact HDo.
    + vm_compute in Hb. discriminate Hb.
Defined.

(** C9 as stated fails: with a method outside the supported ones and a body
    whose reading fails, the call does fail before anything is sent, but
    with the read error, not with "unsupported method". *)
Lemma unsupported_method_read_error_first :
  let run := Hwaasresty.Do (Scenario.env (Scenario.always 200)) Scenario.unreachable
               Scenario.resty_client Ctx.Background Scenario.foo_posts
               Scenario.start_broken in
  (Hwaasresty.Method Scenario.foo_posts ∉ Hwaasresty.supported)
  ∧ (run.1 = Return (None, Some (ErrRead "unexpected EOF")))
  ∧ run.1 ≠ Return (None, Some ErrUnsupportedMethod)
  ∧ wire run.2 = [].
Proof.
  cbv zeta. split; [| split; [| split]].
  - vm_compute. intros H.
    repeat (apply elem_of_cons in H as [H|H]; [discriminate H|]).
    by apply elem_of_nil in H.
  - vm_compute. reflexivity.
  - vm_compute. discriminate.
  - vm_compute. reflexivity.
Qed.

(** In package httpclient a method such as "FOO" is a token, and is sent. *)
Lemma Do_sends_any_token :
  let run := Httpclient.Do (Scenario.env (Scenario.always 200)) 5
               (Scenario.client 0 0) Ctx.Background
               (Httpclient.mkRequestOptions "/posts" "FOO" ∅ ∅ None 0)
               Scenario.start in
  map sent_method (wire run.2) = ["FOO"].
Proof. vm_compute. reflexivity. Qed.
End Methods.
